(** * Lens Master: the product customizer, its price calculation and cart commit

    A shallow embedding of [ProductCustomizer] (src/App.tsx), the pricing
    table [LENS_PRICING] (src/constants.tsx) and the record types of
    src/types.ts, followed by the properties of the customization flow.

    Conventions of the embedding.
    - A JavaScript object whose fields may be missing is a record of options;
      [None] is an absent ([undefined]) field.
    - Amounts are JavaScript numbers.  The catalogue and the pricing table
      hold integral amounts, on which double-precision addition is exact, so a
      finite number is an integer here; [JNaN] is kept, because adding
      [undefined] to a number produces it.
    - The component's state hooks are the fields of [Session]; a state setter
      is a [StateUpdate] dispatched by a component instance.  A setter of an
      instance that is no longer mounted is called to no effect.
    - An [await] splits a handler into the part that runs at once and the
      continuation that runs when the awaited call completes; completions are
      events, so that calls may complete in any order and at any time.
    - [JSON.stringify] is a parameter of the handlers. *)

From Stdlib Require Import ZArith.
From stdpp Require Import base gmap strings list fin_maps.

Local Open Scope Z_scope.
Local Open Scope string_scope.

(** ** src/types.ts *)

Inductive ProductCategory := POWER_SPECTACLES | SUNGLASSES.

Inductive LensType := Single_Vision | Bifocal | Progressive.

Inductive LensMaterial := Plastic | Polycarbonate | High_Index.

Record LensSelection := {
  type : LensType;
  material : LensMaterial;
  coatings : list string;
  priceAdjustment : Z
}.

Record Product := {
  product_id : string;
  name : string;
  category : ProductCategory;
  brand : string;
  price : Z;
  image : string;
  stock : Z;
  description : string
}.

#[global] Instance ProductCategory_eq_dec : EqDecision ProductCategory.
Proof. solve_decision. Defined.
#[global] Instance LensType_eq_dec : EqDecision LensType.
Proof. solve_decision. Defined.
#[global] Instance LensMaterial_eq_dec : EqDecision LensMaterial.
Proof. solve_decision. Defined.

(** ** src/constants.tsx: LENS_PRICING *)

Module LENS_PRICING.

Definition types (t : LensType) : Z :=
  match t with
  | Single_Vision => 50
  | Bifocal => 120
  | Progressive => 250
  end.

Definition materials (m : LensMaterial) : Z :=
  match m with
  | Plastic => 0
  | Polycarbonate => 40
  | High_Index => 100
  end.

Definition coatings : gmap string Z :=
  list_to_map
    [ ("Anti-glare", 30);
      ("Blue Light", 45);
      ("UV Protection", 20);
      ("Scratch Resistant", 25) ].

End LENS_PRICING.

(** ** JavaScript values met by the price calculation *)

(** The value of [extra] and of the total.  [JString] is a string built by
    [+] when one operand is not a number; its text is not tracked. *)
Inductive jsval :=
| JNum (z : Z)
| JNaN
| JString.

(** What reading a property of an object literal yields. *)
Inductive property :=
| Own (z : Z)        (* a number stored in the literal *)
| Inherited          (* a function or object found on Object.prototype *)
| Undefined.         (* no such property *)

(** The property names every object literal inherits from Object.prototype. *)
Definition Object_prototype_keys : list string :=
  [ "constructor"; "__proto__"; "hasOwnProperty"; "isPrototypeOf";
    "propertyIsEnumerable"; "toLocaleString"; "toString"; "valueOf";
    "__defineGetter__"; "__defineSetter__"; "__lookupGetter__";
    "__lookupSetter__" ].

(** [(LENS_PRICING.coatings as any)[c]] *)
Definition coatings_get (c : string) : property :=
  match LENS_PRICING.coatings !! c with
  | Some z => Own z
  | None => if bool_decide (c ∈ Object_prototype_keys) then Inherited else Undefined
  end.

(** [a + b] for [a] a value of [extra] and [b] a property read. *)
Definition js_add (a : jsval) (b : property) : jsval :=
  match a, b with
  | JString, _ => JString
  | _, Inherited => JString
  | JNum x, Own y => JNum (x + y)
  | JNum _, Undefined => JNaN
  | JNaN, _ => JNaN
  end.

(** [product.price + extra] *)
Definition js_add_price (p : Z) (extra : jsval) : jsval :=
  match extra with
  | JNum e => JNum (p + e)
  | JNaN => JNaN
  | JString => JString
  end.

(** ** ProductCustomizer: the price calculation *)

Definition isPower (product : Product) : bool :=
  bool_decide (category product = POWER_SPECTACLES).

(** The body of the [forEach] over [lensSelection.coatings]. *)
Definition add_coatings (extra : jsval) (cs : list string) : jsval :=
  fold_left (fun extra c => js_add extra (coatings_get c)) cs extra.

Definition calculateTotal (product : Product) (lensSelection : LensSelection) : jsval :=
  let extra := JNum 0 in
  let extra :=
    if isPower product then
      let extra := js_add extra (Own (LENS_PRICING.types (type lensSelection))) in
      let extra := js_add extra (Own (LENS_PRICING.materials (material lensSelection))) in
      add_coatings extra (coatings lensSelection)
    else extra in
  js_add_price (price product) extra.

(** How an evaluation ends: with a value, or by throwing. *)
Inductive completion (A : Type) :=
| Normal (a : A)
| Throw (error : string).
Arguments Normal {A} a.
Arguments Throw {A} error.

(** Evaluating the memoised total.  Its body has no [throw] and applies no
    operation that throws on values of the declared types. *)
Definition calculateTotal_eval (product : Product) (lensSelection : LensSelection)
  : completion jsval :=
  Normal (calculateTotal product lensSelection).

(** ** Prescriptions *)

(** One eye of a prescription.  src/types.ts declares the three fields as
    strings; the extraction result is untyped ([any]) and its response schema
    requires none of them, so each may be missing in a value that reaches the
    component state. *)
Record EyeMeasurement := {
  sph : option string;
  cyl : option string;
  axis : option string
}.

(** [Partial<Prescription>], which is also the shape of an extraction result. *)
Record Prescription := {
  prescription_id : option string;
  userId : option string;
  rightEye : option EyeMeasurement;
  leftEye : option EyeMeasurement;
  pd : option string;
  fileUrl : option string
}.

Inductive EyeField := Sph | Cyl | Axis.

(** JavaScript truthiness of a [string | null | undefined]. *)
Definition truthy (o : option string) : bool :=
  match o with
  | Some s => negb (bool_decide (s = ""))
  | None => false
  end.

(** One key of an object spread [{...prev, ...data}]: the later operand wins
    where it has the key. *)
Definition spread_key {A} (prev data : option A) : option A :=
  match data with
  | Some v => Some v
  | None => prev
  end.

(** [{...prev, ...data}] *)
Definition spread_prescription (prev data : Prescription) : Prescription :=
  {| prescription_id := spread_key (prescription_id prev) (prescription_id data);
     userId := spread_key (userId prev) (userId data);
     rightEye := spread_key (rightEye prev) (rightEye data);
     leftEye := spread_key (leftEye prev) (leftEye data);
     pd := spread_key (pd prev) (pd data);
     fileUrl := spread_key (fileUrl prev) (fileUrl data) |}.

(** [{...eye!, f: v}]; spreading an absent eye contributes no key. *)
Definition spread_eye_with (eye : option EyeMeasurement) (f : EyeField) (v : string)
  : EyeMeasurement :=
  let e := default {| sph := None; cyl := None; axis := None |} eye in
  match f with
  | Sph => {| sph := Some v; cyl := cyl e; axis := axis e |}
  | Cyl => {| sph := sph e; cyl := Some v; axis := axis e |}
  | Axis => {| sph := sph e; cyl := cyl e; axis := Some v |}
  end.

(** [{...prescription, rightEye: {...prescription.rightEye!, f: v}}] *)
Definition with_rightEye (p : Prescription) (f : EyeField) (v : string) : Prescription :=
  {| prescription_id := prescription_id p; userId := userId p;
     rightEye := Some (spread_eye_with (rightEye p) f v);
     leftEye := leftEye p; pd := pd p; fileUrl := fileUrl p |}.

(** [{...prescription, leftEye: {...prescription.leftEye!, f: v}}] *)
Definition with_leftEye (p : Prescription) (f : EyeField) (v : string) : Prescription :=
  {| prescription_id := prescription_id p; userId := userId p;
     rightEye := rightEye p;
     leftEye := Some (spread_eye_with (leftEye p) f v);
     pd := pd p; fileUrl := fileUrl p |}.

(** [{...prescription, pd: v}] *)
Definition with_pd (p : Prescription) (v : string) : Prescription :=
  {| prescription_id := prescription_id p; userId := userId p;
     rightEye := rightEye p; leftEye := leftEye p;
     pd := Some v; fileUrl := fileUrl p |}.

(** [{...lensSelection, type: t}] *)
Definition with_type (l : LensSelection) (t : LensType) : LensSelection :=
  {| type := t; material := material l; coatings := coatings l;
     priceAdjustment := priceAdjustment l |}.

(** [{...lensSelection, material: m}] *)
Definition with_material (l : LensSelection) (m : LensMaterial) : LensSelection :=
  {| type := type l; material := m; coatings := coatings l;
     priceAdjustment := priceAdjustment l |}.

(** ** ProductCustomizer: component state *)

Record Session := {
  step : Z;
  prescription : Prescription;
  lensSelection : LensSelection;
  isAiLoading : bool;
  lensRecommendation : option string;
  isRecLoading : bool
}.

Definition initial_eye : EyeMeasurement :=
  {| sph := Some "0.00"; cyl := Some "0.00"; axis := Some "0" |}.

Definition initial_prescription : Prescription :=
  {| prescription_id := None; userId := None;
     rightEye := Some initial_eye;
     leftEye := Some initial_eye;
     pd := Some "63";
     fileUrl := None |}.

Definition initial_lensSelection : LensSelection :=
  {| type := Single_Vision; material := Plastic; coatings := [];
     priceAdjustment := 0 |}.

(** The arguments of the [useState] calls. *)
Definition initial_session : Session :=
  {| step := 1;
     prescription := initial_prescription;
     lensSelection := initial_lensSelection;
     isAiLoading := false;
     lensRecommendation := None;
     isRecLoading := false |}.

(** A call of one of the component's state setters. *)
Inductive StateUpdate :=
| setStep (n : Z)
| setPrescription (p : Prescription)
| setPrescription_spread (data : Prescription)   (* prev => ({...prev, ...data}) *)
| setLensSelection (l : LensSelection)
| setIsAiLoading (b : bool)
| setLensRecommendation (r : string)
| setIsRecLoading (b : bool).

Definition apply_update (u : StateUpdate) (s : Session) : Session :=
  match u with
  | setStep n =>
      {| step := n; prescription := prescription s; lensSelection := lensSelection s;
         isAiLoading := isAiLoading s; lensRecommendation := lensRecommendation s;
         isRecLoading := isRecLoading s |}
  | setPrescription p =>
      {| step := step s; prescription := p; lensSelection := lensSelection s;
         isAiLoading := isAiLoading s; lensRecommendation := lensRecommendation s;
         isRecLoading := isRecLoading s |}
  | setPrescription_spread data =>
      {| step := step s; prescription := spread_prescription (prescription s) data;
         lensSelection := lensSelection s;
         isAiLoading := isAiLoading s; lensRecommendation := lensRecommendation s;
         isRecLoading := isRecLoading s |}
  | setLensSelection l =>
      {| step := step s; prescription := prescription s; lensSelection := l;
         isAiLoading := isAiLoading s; lensRecommendation := lensRecommendation s;
         isRecLoading := isRecLoading s |}
  | setIsAiLoading b =>
      {| step := step s; prescription := prescription s; lensSelection := lensSelection s;
         isAiLoading := b; lensRecommendation := lensRecommendation s;
         isRecLoading := isRecLoading s |}
  | setLensRecommendation r =>
      {| step := step s; prescription := prescription s; lensSelection := lensSelection s;
         isAiLoading := isAiLoading s; lensRecommendation := Some r;
         isRecLoading := isRecLoading s |}
  | setIsRecLoading b =>
      {| step := step s; prescription := prescription s; lensSelection := lensSelection s;
         isAiLoading := isAiLoading s; lensRecommendation := lensRecommendation s;
         isRecLoading := b |}
  end.

(** ** The cart line item built by handleFinish *)

Module CartLineItem.
Record t := {
  product : Product;                       (* ...product *)
  finalPrice : jsval;
  prescription : option Prescription;      (* null for a non-power product *)
  lensSelection : option LensSelection;    (* null for a non-power product *)
  customized : bool
}.
End CartLineItem.

(** ** The application around the component *)

(** A mounted [ProductCustomizer]: its identity, its [product] prop and the
    current values of its state hooks. *)
Record Instance := {
  inst_id : nat;
  inst_product : Product;
  inst_state : Session
}.

(** What the handlers read and write.
    - [cart]: the [cart] state of [App], written through [addToCart].
    - [recommendationCache]: the module-level cache object.  Its keys are
      JSON texts, none of which is a property name of Object.prototype.
    - [current]: the customizer on screen, if any; [next_id] numbers the mounts.
    - [extractions]: the [analyzePrescriptionImage] calls in flight, each with
      the instance whose handler awaits it.
    - [advisories]: the [getLensRecommendation] calls in flight, each with the
      awaiting instance and the [cacheKey] of its closure.
    - [advisoryCalls]: the argument of every [getLensRecommendation] call made.
    - [updates]: every state-setter call made, with the calling instance.
    - [alerts]: the texts passed to [alert]. *)
Record World := {
  cart : list CartLineItem.t;
  recommendationCache : gmap string string;
  current : option Instance;
  next_id : nat;
  extractions : list nat;
  advisories : list (nat * string);
  advisoryCalls : list Prescription;
  updates : list (nat * StateUpdate);
  alerts : list string
}.

Definition initial_world : World :=
  {| cart := []; recommendationCache := ∅; current := None; next_id := 0;
     extractions := []; advisories := []; advisoryCalls := [];
     updates := []; alerts := [] |}.

Definition with_cart (w : World) (c : list CartLineItem.t) : World :=
  {| cart := c; recommendationCache := recommendationCache w; current := current w;
     next_id := next_id w; extractions := extractions w; advisories := advisories w;
     advisoryCalls := advisoryCalls w; updates := updates w; alerts := alerts w |}.

Definition with_cache (w : World) (c : gmap string string) : World :=
  {| cart := cart w; recommendationCache := c; current := current w;
     next_id := next_id w; extractions := extractions w; advisories := advisories w;
     advisoryCalls := advisoryCalls w; updates := updates w; alerts := alerts w |}.

Definition with_current (w : World) (c : option Instance) : World :=
  {| cart := cart w; recommendationCache := recommendationCache w; current := c;
     next_id := next_id w; extractions := extractions w; advisories := advisories w;
     advisoryCalls := advisoryCalls w; updates := updates w; alerts := alerts w |}.

Definition with_extractions (w : World) (l : list nat) : World :=
  {| cart := cart w; recommendationCache := recommendationCache w; current := current w;
     next_id := next_id w; extractions := l; advisories := advisories w;
     advisoryCalls := advisoryCalls w; updates := updates w; alerts := alerts w |}.

Definition with_advisories (w : World) (l : list (nat * string)) : World :=
  {| cart := cart w; recommendationCache := recommendationCache w; current := current w;
     next_id := next_id w; extractions := extractions w; advisories := l;
     advisoryCalls := advisoryCalls w; updates := updates w; alerts := alerts w |}.

Definition with_alert (w : World) (msg : string) : World :=
  {| cart := cart w; recommendationCache := recommendationCache w; current := current w;
     next_id := next_id w; extractions := extractions w; advisories := advisories w;
     advisoryCalls := advisoryCalls w; updates := updates w;
     alerts := alerts w ++ [msg] |}.

(** The effect of a setter of instance [i] on the mounted instance: it
    reaches the state only of the instance that called it. *)
Definition update_instance (i : nat) (u : StateUpdate) (inst : Instance) : Instance :=
  if bool_decide (inst_id inst = i) then
    {| inst_id := inst_id inst; inst_product := inst_product inst;
       inst_state := apply_update u (inst_state inst) |}
  else inst.

(** A state setter called by instance [i].  The call always happens; the
    state it targets exists only while that instance is the mounted one, and a
    setter of an unmounted component changes nothing. *)
Definition dispatch (i : nat) (u : StateUpdate) (w : World) : World :=
  {| cart := cart w; recommendationCache := recommendationCache w;
     current := update_instance i u <$> current w;
     next_id := next_id w; extractions := extractions w; advisories := advisories w;
     advisoryCalls := advisoryCalls w;
     updates := updates w ++ [(i, u)];
     alerts := alerts w |}.

(** [getLensRecommendation(pData)] is called by instance [i]; the promise is
    pending until an [AdvisoryResolved] or [AdvisoryRejected] event. *)
Definition call_getLensRecommendation (i : nat) (cacheKey : string)
    (pData : Prescription) (w : World) : World :=
  {| cart := cart w; recommendationCache := recommendationCache w; current := current w;
     next_id := next_id w; extractions := extractions w;
     advisories := advisories w ++ [(i, cacheKey)];
     advisoryCalls := advisoryCalls w ++ [pData];
     updates := updates w; alerts := alerts w |}.

(** The user's actions and the completions of the external calls. *)
Inductive Event :=
| Open (p : Product)                       (* a product is chosen; /customize is shown *)
| NavigateAway                             (* another route is shown *)
| EditRightEye (f : EyeField) (v : string) (* onChange of a right-eye input *)
| EditLeftEye (f : EyeField) (v : string)  (* onChange of a left-eye input *)
| EditPd (v : string)                      (* onChange of the PD input *)
| Upload                                   (* handleFileUpload with a file *)
| Next                                     (* handleNextStep *)
| SelectType (t : LensType)
| SelectMaterial (m : LensMaterial)
| Goto (n : Z)                             (* the buttons calling setStep(n) *)
| Finish                                   (* handleFinish *)
| ExtractionResolved (k : nat) (data : Prescription)
| ExtractionRejected (k : nat)
| AdvisoryResolved (k : nat) (rec : option string)
| AdvisoryRejected (k : nat).

(** [rec || "Based on your data, standard materials are suitable."] *)
Definition cleanedRec (rec : option string) : string :=
  if truthy rec then default "" rec
  else "Based on your data, standard materials are suitable.".

Section Customizer.

(** [JSON.stringify], of the JavaScript runtime. *)
Variable JSON_stringify : Prescription -> string.

(** fetchRecommendation, up to its [await]. *)
Definition fetchRecommendation (i : nat) (pData : Prescription) (w : World) : World :=
  let cacheKey := JSON_stringify pData in
  if truthy (recommendationCache w !! cacheKey) then
    dispatch i (setLensRecommendation (default "" (recommendationCache w !! cacheKey))) w
  else
    let w := dispatch i (setIsRecLoading true) w in
    call_getLensRecommendation i cacheKey pData w.

(** fetchRecommendation, after [getLensRecommendation] has returned [rec]. *)
Definition fetchRecommendation_resolved (i : nat) (cacheKey : string)
    (rec : option string) (w : World) : World :=
  let cleanedRec := cleanedRec rec in
  let w := with_cache w (<[cacheKey := cleanedRec]> (recommendationCache w)) in
  let w := dispatch i (setLensRecommendation cleanedRec) w in
  dispatch i (setIsRecLoading false) w.

(** fetchRecommendation, after [getLensRecommendation] has failed. *)
Definition fetchRecommendation_rejected (i : nat) (w : World) : World :=
  dispatch i (setIsRecLoading false) w.

(** handleFileUpload with a file: the loading flag is set and the file is
    read and sent to [analyzePrescriptionImage].  The FileReader is taken to
    deliver the file's data. *)
Definition handleFileUpload (inst : Instance) (w : World) : World :=
  let w := dispatch (inst_id inst) (setIsAiLoading true) w in
  with_extractions w (extractions w ++ [inst_id inst]).

(** handleFileUpload, after [analyzePrescriptionImage] has returned [data]. *)
Definition handleFileUpload_resolved (i : nat) (data : Prescription) (w : World) : World :=
  let w := dispatch i (setPrescription_spread data) w in
  let w := fetchRecommendation i data w in
  dispatch i (setIsAiLoading false) w.

(** handleFileUpload, after [analyzePrescriptionImage] has failed. *)
Definition handleFileUpload_rejected (i : nat) (w : World) : World :=
  let w := with_alert w "Could not analyze prescription. Please enter manually." in
  dispatch i (setIsAiLoading false) w.

Definition handleNextStep (inst : Instance) (w : World) : World :=
  let s := inst_state inst in
  if bool_decide (step s = 1) then
    let w := dispatch (inst_id inst) (setStep 2) w in
    if negb (truthy (lensRecommendation s)) && negb (isRecLoading s) then
      fetchRecommendation (inst_id inst) (prescription s) w
    else w
  else dispatch (inst_id inst) (setStep (step s + 1)) w.

(** The object handed to [addToCart]. *)
Definition finished_item (inst : Instance) : CartLineItem.t :=
  let product := inst_product inst in
  let s := inst_state inst in
  {| CartLineItem.product := product;
     CartLineItem.finalPrice := calculateTotal product (lensSelection s);
     CartLineItem.prescription :=
       if isPower product then Some (prescription s) else None;
     CartLineItem.lensSelection :=
       if isPower product then Some (lensSelection s) else None;
     CartLineItem.customized := true |}.

(** handleFinish: [addToCart] appends to the cart, [navigate('/cart')]
    takes the customizer off the screen. *)
Definition handleFinish (inst : Instance) (w : World) : World :=
  let w := with_cart w (cart w ++ [finished_item inst]) in
  with_current w None.

(** Mounting a customizer for [p]. *)
Definition mount (p : Product) (w : World) : World :=
  {| cart := cart w; recommendationCache := recommendationCache w;
     current := Some {| inst_id := next_id w; inst_product := p;
                        inst_state := initial_session |};
     next_id := S (next_id w);
     extractions := extractions w; advisories := advisories w;
     advisoryCalls := advisoryCalls w; updates := updates w; alerts := alerts w |}.

(** The handler an action of the user runs, in the mounted instance. *)
Definition handle_ui (e : Event) (inst : Instance) (w : World) : World :=
  let i := inst_id inst in
  let s := inst_state inst in
  match e with
  | NavigateAway => with_current w None
  | EditRightEye f v => dispatch i (setPrescription (with_rightEye (prescription s) f v)) w
  | EditLeftEye f v => dispatch i (setPrescription (with_leftEye (prescription s) f v)) w
  | EditPd v => dispatch i (setPrescription (with_pd (prescription s) v)) w
  | Upload => handleFileUpload inst w
  | Next => handleNextStep inst w
  | SelectType t => dispatch i (setLensSelection (with_type (lensSelection s) t)) w
  | SelectMaterial m => dispatch i (setLensSelection (with_material (lensSelection s) m)) w
  | Goto n => dispatch i (setStep n) w
  | Finish => handleFinish inst w
  | _ => w
  end.

(** What an event does. *)
Definition handle (e : Event) (w : World) : World :=
  match e with
  | Open p => mount p w
  | ExtractionResolved k data =>
      match extractions w !! k with
      | Some i => handleFileUpload_resolved i data (with_extractions w (delete k (extractions w)))
      | None => w
      end
  | ExtractionRejected k =>
      match extractions w !! k with
      | Some i => handleFileUpload_rejected i (with_extractions w (delete k (extractions w)))
      | None => w
      end
  | AdvisoryResolved k rec =>
      match advisories w !! k with
      | Some (i, cacheKey) =>
          fetchRecommendation_resolved i cacheKey rec
            (with_advisories w (delete k (advisories w)))
      | None => w
      end
  | AdvisoryRejected k =>
      match advisories w !! k with
      | Some (i, _) => fetchRecommendation_rejected i (with_advisories w (delete k (advisories w)))
      | None => w
      end
  | _ =>
      match current w with
      | Some inst => handle_ui e inst w
      | None => w
      end
  end.

(** Which actions the rendered page offers, and which calls can complete. *)
Definition enabled (w : World) (e : Event) : bool :=
  match e with
  | Open _ => bool_decide (current w = None)
  | ExtractionResolved k _ | ExtractionRejected k => bool_decide (is_Some (extractions w !! k))
  | AdvisoryResolved k _ | AdvisoryRejected k => bool_decide (is_Some (advisories w !! k))
  | _ =>
      match current w with
      | None => false
      | Some inst =>
          let n := step (inst_state inst) in
          match e with
          | NavigateAway => true
          | Finish => negb (isPower (inst_product inst)) || bool_decide (n = 3)
          | EditRightEye _ _ | EditLeftEye _ _ | EditPd _ | Upload | Next =>
              isPower (inst_product inst) && bool_decide (n = 1)
          | SelectType _ | SelectMaterial _ =>
              isPower (inst_product inst) && bool_decide (n = 2)
          | Goto m =>
              isPower (inst_product inst) &&
              (bool_decide (n = 2 ∧ (m = 1 ∨ m = 3)) || bool_decide (n = 3 ∧ m = 2))
          | _ => false
          end
      end
  end.

Definition step_world (w : World) (e : Event) : option World :=
  if enabled w e then Some (handle e w) else None.

(** Running a sequence of events, each offered when it happens. *)
Fixpoint run (tr : list Event) (w : World) : option World :=
  match tr with
  | [] => Some w
  | e :: tr =>
      match step_world w e with
      | Some w' => run tr w'
      | None => None
      end
  end.

(** The states of the application that some sequence of events produces. *)
Inductive reachable : World -> Prop :=
| reachable_initial : reachable initial_world
| reachable_step w e w' :
    reachable w -> step_world w e = Some w' -> reachable w'.

End Customizer.

(** * Notions used in the statements *)

(** ** Prices *)

(** The adjustment the pricing table gives a coating it lists. *)
Definition coatingAdjustment (c : string) : Z :=
  default 0 (LENS_PRICING.coatings !! c).

(** The sum of the adjustments of the entries of a coating list, each entry
    counted as often as it occurs. *)
Definition coatings_sum (cs : list string) : Z :=
  foldr Z.add 0 (coatingAdjustment <$> cs).



(** Every entry of the list is a key of the pricing table. *)
Definition coatings_known (cs : list string) : Prop :=
  Forall (fun c => is_Some (LENS_PRICING.coatings !! c)) cs.

(** ** Examples from the catalogue (MOCK_PRODUCTS of src/constants.tsx) *)

Definition wayfarer : Product :=
  {| product_id := "2"; name := "Wayfarer Smart"; category := POWER_SPECTACLES;
     brand := "Ray-Ban"; price := 189;
     image := "https://picsum.photos/seed/wayfarer/400/300"; stock := 12;
     description :=
       "A modern twist on a legendary design, optimized for vision correction." |}.

Definition aviator : Product :=
  {| product_id := "1"; name := "Aviator Classic"; category := SUNGLASSES;
     brand := "Ray-Ban"; price := 159;
     image := "https://picsum.photos/seed/aviator/400/300"; stock := 25;
     description := "Iconic teardrop shape that started it all." |}.


(** ** Invariants *)

(** A property of the mounted instance, if there is one. *)
Definition holds (Q : Instance -> Prop) (w : World) : Prop :=
  forall inst, current w = Some inst -> Q inst.

(** A setter call that keeps [Q], whoever makes it. *)
Definition stable (Q : Instance -> Prop) (u : StateUpdate) : Prop :=
  forall i inst, Q inst -> Q (update_instance i u inst).

(** [Q] reads nothing of an instance but its identity, its product, its
    prescription and its lens selection. *)
Definition reads_order_only (Q : Instance -> Prop) : Prop :=
  forall inst s,
    prescription s = prescription (inst_state inst) ->
    lensSelection s = lensSelection (inst_state inst) ->
    Q inst ->
    Q {| inst_id := inst_id inst; inst_product := inst_product inst; inst_state := s |}.

(** The lens selection has the coating list [cs] and the [priceAdjustment] [a]. *)
Definition lens_frame (cs : list string) (a : Z) (inst : Instance) : Prop :=
  coatings (lensSelection (inst_state inst)) = cs /\
  priceAdjustment (lensSelection (inst_state inst)) = a.

(** The lens selection has no coating and a zero [priceAdjustment]. *)
Definition lens_ok : Instance -> Prop := lens_frame [] 0.

(** A line item is what [handleFinish] builds from an instance whose lens
    selection is as above. *)
Definition item_ok (it : CartLineItem.t) : Prop :=
  exists inst, it = finished_item inst /\ lens_ok inst.

(** The invariant of the reachable states. *)
Definition world_ok (w : World) : Prop :=
  holds lens_ok w /\ Forall item_ok (cart w).

(** ** Example sessions *)

(** The scan result used in the examples. *)
Definition scanned : Prescription :=
  {| prescription_id := None; userId := None; rightEye := None;
     leftEye := Some {| sph := Some "-2.00"; cyl := Some "0.50"; axis := Some "90" |};
     pd := Some "61"; fileUrl := None |}.

(** A serialisation to run examples with: it tells prescriptions apart by
    their pupillary distance only. *)
Definition stringify_pd (p : Prescription) : string :=
  "{pd:" ++ default "" (pd p) ++ "}".

(** The actions of the three customization steps. *)
Definition step_flow_event (e : Event) : bool :=
  match e with
  | EditRightEye _ _ | EditLeftEye _ _ | EditPd _ | Upload | Next
  | SelectType _ | SelectMaterial _ | Goto _ => true
  | _ => false
  end.

(** A session on the Aviator sunglasses whose component state holds a lens
    selection with coatings, which no action can produce. *)
Definition sunglasses_instance : Instance :=
  {| inst_id := 0; inst_product := aviator;
     inst_state :=
       {| step := 1; prescription := initial_prescription;
          lensSelection :=
            {| type := Progressive; material := High_Index;
               coatings := ["Anti-glare"; "Mirror"]; priceAdjustment := 7 |};
          isAiLoading := false; lensRecommendation := None;
          isRecLoading := false |} |}.

(** A session on the Wayfarer in which a scan was merged, the lens type and
    material were chosen, and the order was committed. *)
Definition sample_trace : list Event :=
  [ Open wayfarer; Upload;
    ExtractionResolved 0 scanned;
    Next; SelectType Progressive; SelectMaterial High_Index; Goto 3; Finish;
    Open wayfarer; Next; SelectType Bifocal ].

(** The state of the application after those events. *)
Definition sample_world : World :=
  default initial_world (run stringify_pd sample_trace initial_world).

(** The mounted instance without its loading flags and advisory text. *)
Record OrderView := {
  view_id : nat;
  view_product : Product;
  view_step : Z;
  view_prescription : Prescription;
  view_lensSelection : LensSelection
}.

(** The view of an instance. *)
Definition view_of (inst : Instance) : OrderView :=
  {| view_id := inst_id inst; view_product := inst_product inst;
     view_step := step (inst_state inst);
     view_prescription := prescription (inst_state inst);
     view_lensSelection := lensSelection (inst_state inst) |}.

(** The order on screen, if a customizer is mounted. *)
Definition order_view (w : World) : option OrderView := view_of <$> current w.

(** The setters of the loading flags and of the advisory text. *)
Definition side_update (u : StateUpdate) : bool :=
  match u with
  | setIsAiLoading _ | setLensRecommendation _ | setIsRecLoading _ => true
  | _ => false
  end.

(** An extraction result that returns the sphere of the right eye only. *)
Definition right_sphere_only : Prescription :=
  {| prescription_id := None; userId := None;
     rightEye := Some {| sph := Some "-1.00"; cyl := None; axis := None |};
     leftEye := None; pd := None; fileUrl := None |}.

(** The edits of the prescription inputs. *)
Definition manual_entry_event (e : Event) : bool :=
  match e with
  | EditRightEye _ _ | EditLeftEye _ _ | EditPd _ => true
  | _ => false
  end.

(** A scan started at step 1 of a session in which the pupillary distance
    had been typed in. *)
Definition scanning_world : World :=
  default initial_world
    (run stringify_pd [Open wayfarer; EditPd "61"; Upload] initial_world).

(** The completion of a call left no trace: nothing but the list of calls
    in flight differs between [w] and [w']. *)
Definition discarded (w w' : World) : Prop :=
  current w' = current w /\ cart w' = cart w
  /\ recommendationCache w' = recommendationCache w
  /\ updates w' = updates w /\ advisoryCalls w' = advisoryCalls w
  /\ alerts w' = alerts w.

(** Instance [i] is not on screen. *)
Definition torn_down (i : nat) (w : World) : Prop :=
  forall inst, current w = Some inst -> inst_id inst <> i.

(** The customizer was left while a scan was in flight. *)
Definition left_while_scanning : World :=
  default initial_world
    (run stringify_pd [Open wayfarer; Upload; NavigateAway] initial_world).

(** A Wayfarer session has just been opened. *)
Definition opened_world : World :=
  default initial_world (run stringify_pd [Open wayfarer] initial_world).

(** The first request and its answer, followed by an edit of the left eye and
    the start of a scan. *)
Definition answered_world : World :=
  default initial_world
    (run stringify_pd
       [AdvisoryResolved 0 (Some "Polycarbonate"); EditLeftEye Sph "-0.50"; Upload]
       (fetchRecommendation stringify_pd 0 initial_prescription opened_world)).

(** The events of a detour through the steps: step changes, lens choices and
    completions of advisory calls. *)
Definition detour_event (e : Event) : bool :=
  match e with
  | Next | Goto _ | SelectType _ | SelectMaterial _
  | AdvisoryResolved _ _ | AdvisoryRejected _ => true
  | _ => false
  end.

(** Two views of the same order with the same prescription. *)
Definition same_prescription (v v' : OrderView) : Prop :=
  view_id v' = view_id v /\ view_product v' = view_product v
  /\ view_prescription v' = view_prescription v.

(** The same order at step [n]. *)
Definition at_step (v : OrderView) (n : Z) : OrderView :=
  {| view_id := view_id v; view_product := view_product v; view_step := n;
     view_prescription := view_prescription v;
     view_lensSelection := view_lensSelection v |}.

(** The instance of a Wayfarer session in which the right sphere and the
    pupillary distance were typed in at step 1. *)
Definition edited_instance : Instance :=
  {| inst_id := 0; inst_product := wayfarer;
     inst_state :=
       {| step := 1;
          prescription :=
            with_pd (with_rightEye initial_prescription Sph "-1.25") "61";
          lensSelection := initial_lensSelection;
          isAiLoading := false; lensRecommendation := None;
          isRecLoading := false |} |}.

(** The state of the application with that session on screen. *)
Definition edited_world : World :=
  default initial_world
    (run stringify_pd [Open wayfarer; EditRightEye Sph "-1.25"; EditPd "61"]
       initial_world).

(** * The rest of the application *)

(** ** App: the cart (addToCart, removeFromCart) and its totals *)


(** [removeFromCart]: [setCart(prev => prev.filter((_, i) => i !== idx))] *)
Definition removeFromCart (idx : nat) (prev : list CartLineItem.t)
  : list CartLineItem.t :=
  (filter (fun ix => ix.1 <> idx) (imap pair prev)).*2.

(** The [clearCart] of the checkout route: [setCart([])] *)
Definition clearCart (prev : list CartLineItem.t) : list CartLineItem.t := [].

(** JavaScript truthiness of a value of the price calculation: 0 and NaN are
    falsy; a string built by [+] from a number is not empty, hence truthy. *)
Definition js_truthy (v : jsval) : bool :=
  match v with
  | JNum z => negb (bool_decide (z = 0))
  | JNaN => false
  | JString => true
  end.

(** [item.finalPrice || item.price] *)
Definition charged (item : CartLineItem.t) : jsval :=
  if js_truthy (CartLineItem.finalPrice item) then CartLineItem.finalPrice item
  else JNum (price (CartLineItem.product item)).

(** [a + b] for two values of the price calculation. *)
Definition js_plus (a b : jsval) : jsval :=
  match a, b with
  | JString, _ | _, JString => JString
  | JNum x, JNum y => JNum (x + y)
  | _, _ => JNaN
  end.

(** [cart.reduce((acc, item) => acc + (item.finalPrice || item.price), 0)],
    the subtotal of CartPage and the payable amount of CheckoutPage. *)
Definition subtotal (cart : list CartLineItem.t) : jsval :=
  fold_left (fun acc item => js_plus acc (charged item)) cart (JNum 0).


(** A line item whose final price is NaN, as an unlisted coating makes it. *)
Definition nan_item : CartLineItem.t :=
  {| CartLineItem.product := wayfarer; CartLineItem.finalPrice := JNaN;
     CartLineItem.prescription := Some initial_prescription;
     CartLineItem.lensSelection := Some initial_lensSelection;
     CartLineItem.customized := true |}.


(** The cart after the sample session. *)
Definition sample_cart : list CartLineItem.t := cart sample_world.

(** ** How an event changes the order on screen *)

(** The same order with another prescription. *)
Definition with_view_prescription (v : OrderView) (p : Prescription) : OrderView :=
  {| view_id := view_id v; view_product := view_product v; view_step := view_step v;
     view_prescription := p; view_lensSelection := view_lensSelection v |}.

(** The same order with another lens selection. *)
Definition with_view_lensSelection (v : OrderView) (l : LensSelection) : OrderView :=
  {| view_id := view_id v; view_product := view_product v; view_step := view_step v;
     view_prescription := view_prescription v; view_lensSelection := l |}.

(** What a setter call does to the order. *)
Definition view_apply (u : StateUpdate) (v : OrderView) : OrderView :=
  match u with
  | setStep n => at_step v n
  | setPrescription p => with_view_prescription v p
  | setPrescription_spread d =>
      with_view_prescription v (spread_prescription (view_prescription v) d)
  | setLensSelection l => with_view_lensSelection v l
  | _ => v
  end.

(** The order on screen after an event, told from the order before it, the
    number of the next mount and the owners of the extraction calls. *)
Definition view_after (w : World) (e : Event) : option OrderView :=
  let ov := order_view w in
  match e with
  | Open p =>
      Some {| view_id := next_id w; view_product := p; view_step := 1;
              view_prescription := initial_prescription;
              view_lensSelection := initial_lensSelection |}
  | NavigateAway | Finish => None
  | EditRightEye f x =>
      (fun v => with_view_prescription v (with_rightEye (view_prescription v) f x)) <$> ov
  | EditLeftEye f x =>
      (fun v => with_view_prescription v (with_leftEye (view_prescription v) f x)) <$> ov
  | EditPd x =>
      (fun v => with_view_prescription v (with_pd (view_prescription v) x)) <$> ov
  | Next =>
      (fun v => at_step v (if bool_decide (view_step v = 1) then 2 else view_step v + 1))
        <$> ov
  | SelectType t =>
      (fun v => with_view_lensSelection v (with_type (view_lensSelection v) t)) <$> ov
  | SelectMaterial m =>
      (fun v => with_view_lensSelection v (with_material (view_lensSelection v) m)) <$> ov
  | Goto n => (fun v => at_step v n) <$> ov
  | ExtractionResolved k data =>
      match extractions w !! k with
      | Some i =>
          (fun v => if bool_decide (view_id v = i)
                    then with_view_prescription v
                           (spread_prescription (view_prescription v) data)
                    else v) <$> ov
      | None => ov
      end
  | Upload | ExtractionRejected _ | AdvisoryResolved _ _ | AdvisoryRejected _ => ov
  end.

(** The step is one of the three panels, and the first one for a product
    that is not of the power category. *)
Definition step_in_range (v : OrderView) : Prop :=
  (view_step v = 1 \/ view_step v = 2 \/ view_step v = 3)
  /\ (isPower (view_product v) = false -> view_step v = 1).

(** An extraction result without any field, as parsed from "{}". *)
Definition empty_result : Prescription :=
  {| prescription_id := None; userId := None; rightEye := None; leftEye := None;
     pd := None; fileUrl := None |}.

#[global] Instance EyeField_eq_dec : EqDecision EyeField.
Proof. solve_decision. Defined.

(** ** Flags, advisory texts and calls *)

(** While the advisory loading flag of the mounted customizer is set, a call
    made by it is in flight. *)
Definition loading_has_call (w : World) : Prop :=
  forall inst, current w = Some inst ->
    isRecLoading (inst_state inst) = true ->
    exists key, (inst_id inst, key) ∈ advisories w.

(** No cached text and no advisory text on screen is the empty string. *)
Definition advice_not_empty (w : World) : Prop :=
  (forall key r, recommendationCache w !! key = Some r -> r <> "")
  /\ (forall inst r, current w = Some inst ->
        lensRecommendation (inst_state inst) = Some r -> r <> "").

(** Every key of the cache, and every key awaited by a call in flight, is the
    serialisation of the argument of an external call that was made. *)
Definition keys_were_called (JSON_stringify : Prescription -> string) (w : World) : Prop :=
  (forall key, is_Some (recommendationCache w !! key) ->
     exists p, p ∈ advisoryCalls w /\ JSON_stringify p = key)
  /\ (forall i key, (i, key) ∈ advisories w ->
        exists p, p ∈ advisoryCalls w /\ JSON_stringify p = key).

(** An advisory text is on screen, if a customizer is mounted. *)
Definition advice_shown (w : World) : Prop :=
  forall inst, current w = Some inst ->
    truthy (lensRecommendation (inst_state inst)) = true.

(** The events other than the opening of a customizer and the arrival of a
    scan result. *)
Definition same_session_without_scan_result (e : Event) : bool :=
  match e with
  | Open _ | ExtractionResolved _ _ => false
  | _ => true
  end.

(** The Finish actions of a sequence of events. *)
Definition is_finish (e : Event) : bool :=
  match e with
  | Finish => true
  | _ => false
  end.

(** A Wayfarer session whose first Next has made the advisory request. *)
Definition requested_world : World :=
  default initial_world (run stringify_pd [Open wayfarer; Next] initial_world).

(** A Wayfarer session in which the advice has arrived. *)
Definition advised_world : World :=
  default initial_world
    (run stringify_pd [Open wayfarer; Next; AdvisoryResolved 0 (Some "High Index")]
       initial_world).

(** ** App: toasts (addToast, removeToast) *)

Inductive ToastType := success | info.

Record ToastEntry := {
  toast_id : Z;
  message : string;
  toast_type : ToastType
}.

(** [addToast]: [setToasts(prev => [...prev, { id, message, type }])] with
    [id = Date.now()], the clock reading [now]. *)
Definition addToast (now : Z) (message : string) (type : ToastType)
    (prev : list ToastEntry) : list ToastEntry :=
  prev ++ [{| toast_id := now; message := message; toast_type := type |}].

(** [removeToast]: [setToasts(prev => prev.filter(t => t.id !== id))] *)
Definition removeToast (id : Z) (prev : list ToastEntry) : list ToastEntry :=
  filter (fun t => toast_id t <> id) prev.

(** ** Shop: the catalogue and its category filter *)

(** The string value of a member of the enum ProductCategory. *)
Definition category_text (c : ProductCategory) : string :=
  match c with
  | POWER_SPECTACLES => "Power Spectacles"
  | SUNGLASSES => "Sunglasses"
  end.

Definition tech_titan : Product :=
  {| product_id := "3"; name := "Tech Titan"; category := POWER_SPECTACLES;
     brand := "Oakley"; price := 210;
     image := "https://picsum.photos/seed/oakley/400/300"; stock := 8;
     description := "High-performance frames for the digital lifestyle." |}.

Definition ocean_drift : Product :=
  {| product_id := "4"; name := "Ocean Drift"; category := SUNGLASSES;
     brand := "Maui Jim"; price := 299;
     image := "https://picsum.photos/seed/mauijim/400/300"; stock := 5;
     description := "Polarized lenses for the ultimate beach experience." |}.

Definition MOCK_PRODUCTS : list Product :=
  [aviator; wayfarer; tech_titan; ocean_drift].

(** [catFilter ? products.filter(p => p.category === catFilter) : products],
    for [catFilter] the value of the query parameter [cat], null when the
    parameter is absent. *)
Definition filterByCategory (catFilter : option string) (products : list Product)
  : list Product :=
  if truthy catFilter then
    filter (fun p => category_text (category p) = default "" catFilter) products
  else products.

(** The [filteredProducts] of Shop. *)
Definition filteredProducts (catFilter : option string) : list Product :=
  filterByCategory catFilter MOCK_PRODUCTS.

(** ** useAuth: sign-in, sign-out and the mails they send *)

Inductive UserRole := CUSTOMER | ADMIN.

Module User.
Record t := {
  id : string;
  name : string;
  email : string;
  role : UserRole;
  isLocked : bool;
  failedLoginAttempts : Z;
  gdprConsent : bool
}.
End User.

Inductive EmailType := WELCOME | ORDER_CONFIRMATION | STATUS_UPDATE | PASSWORD_RESET.

#[global] Instance EmailType_eq_dec : EqDecision EmailType.
Proof. solve_decision. Defined.

(** The [data] of a mail. *)
Inductive MailData :=
| name_data (name : string)                    (* { name } *)
| email_data (email : string)                  (* { email } *)
| order_data (orderId total : string)          (* { orderId, total } *)
| status_data (orderId status : string).       (* { orderId, status } *)

(** The argument of [mailService.sendEmail]. *)
Record MailOptions := {
  mail_to : string;
  mail_type : EmailType;
  mail_data : MailData
}.

(** What useAuth reads and writes: the [user] state, the item 'lm_user' of
    localStorage (the user whose JSON text it holds, if the item is set) and
    the calls of [mailService.sendEmail] made so far. *)
Record AuthState := {
  user : option User.t;
  lm_user : option User.t;
  sent : list MailOptions
}.

(** The initial state of the hook: the stored user, if any. *)
Definition initial_auth (saved : option User.t) : AuthState :=
  {| user := saved; lm_user := saved; sent := [] |}.

(** The [mockUser] of login. *)
Definition mockUser (role : UserRole) (providedName providedEmail : option string)
  : User.t :=
  {| User.id := match role with ADMIN => "admin_1" | CUSTOMER => "user_1" end;
     User.name :=
       if truthy providedName then default "" providedName
       else match role with ADMIN => "System Admin" | CUSTOMER => "John Doe" end;
     User.email :=
       if truthy providedEmail then default "" providedEmail
       else match role with
            | ADMIN => "admin@lensmaster.com"
            | CUSTOMER => "john@example.com"
            end;
     User.role := role;
     User.isLocked := false;
     User.failedLoginAttempts := 0;
     User.gdprConsent := true |}.

(** [!localStorage.getItem('lm_user') || !!providedName] *)
Definition isNewUser (s : AuthState) (providedName : option string) : bool :=
  negb (bool_decide (is_Some (lm_user s))) || truthy providedName.

Definition login (role : UserRole) (providedName providedEmail : option string)
    (s : AuthState) : AuthState :=
  let isNewUser := isNewUser s providedName in
  let mockUser := mockUser role providedName providedEmail in
  {| user := Some mockUser;
     lm_user := Some mockUser;
     sent :=
       if isNewUser then
         sent s ++ [{| mail_to := User.email mockUser; mail_type := WELCOME;
                       mail_data := name_data (User.name mockUser) |}]
       else sent s |}.

Definition logout (s : AuthState) : AuthState :=
  {| user := None; lm_user := None; sent := sent s |}.

Definition resetPassword (email : string) (s : AuthState) : AuthState :=
  {| user := user s; lm_user := lm_user s;
     sent := sent s ++ [{| mail_to := email; mail_type := PASSWORD_RESET;
                           mail_data := email_data email |}] |}.

(** The calls of the hook's functions. *)
Inductive AuthAction :=
| Login (role : UserRole) (providedName providedEmail : option string)
| Logout
| ResetPassword (email : string).

Definition auth_step (s : AuthState) (a : AuthAction) : AuthState :=
  match a with
  | Login role n e => login role n e s
  | Logout => logout s
  | ResetPassword email => resetPassword email s
  end.

(** The welcome mails among the mails sent. *)
Definition welcome_mails (s : AuthState) : list MailOptions :=
  filter (fun m => mail_type m = WELCOME) (sent s).

(** ** geminiService: the subject of a generated mail *)









(** ** Advisory calls in flight *)

(** The advisory calls of instance [i] that are in flight. *)
Definition pending_of (i : nat) (w : World) : list (nat * string) :=
  filter (fun a => a.1 = i) (advisories w).

(** Every owner of a call in flight, and the mounted instance, was mounted
    before the next mount. *)
Definition ids_below (w : World) : Prop :=
  Forall (fun i => (i < next_id w)%nat) (extractions w)
  /\ Forall (fun a => (a.1 < next_id w)%nat) (advisories w)
  /\ (forall inst, current w = Some inst -> (inst_id inst < next_id w)%nat).

(** Instance [i] has no scan in flight and at most one advisory call, and
    none while it is mounted with its loading flag down. *)
Definition one_in_flight (i : nat) (w : World) : Prop :=
(i ∉ extractions w)
  /\ (i < next_id w)%nat
  /\ (length (pending_of i w) <= 1)%nat
  /\ (forall inst, current w = Some inst -> inst_id inst = i ->
        isRecLoading (inst_state inst) = false -> pending_of i w = []).

(** The events other than the choice of a file to scan. *)
Definition not_upload (e : Event) : bool :=
  match e with
  | Upload => false
  | _ => true
  end.

(** * Properties *)

(** ** The price calculation *)

Lemma coatings_get_known c :
  is_Some (LENS_PRICING.coatings !! c) -> coatings_get c = Own (coatingAdjustment c).
Proof.
  intros [z Hz]. unfold coatings_get, coatingAdjustment. by rewrite Hz.
Qed.

Lemma add_coatings_known cs : forall a,
  coatings_known cs -> add_coatings (JNum a) cs = JNum (a + coatings_sum cs).
Proof.
  induction cs as [|c cs IH]; intros a Hk.
  - cbn. f_equal. lia.
  - inversion Hk as [|? ? Hc Hcs]; subst.
    unfold add_coatings in *. cbn [fold_left].
    rewrite (coatings_get_known c Hc). cbn [js_add].
    rewrite (IH _ Hcs). unfold coatings_sum. cbn. f_equal. lia.
Qed.



Lemma calculateTotal_known product sel :
  isPower product = true ->
  coatings_known (coatings sel) ->
  calculateTotal product sel =
    JNum (price product + LENS_PRICING.types (type sel)
          + LENS_PRICING.materials (material sel) + coatings_sum (coatings sel)).
Proof.
  intros Hp Hk. unfold calculateTotal. rewrite Hp. cbn [js_add].
  rewrite (add_coatings_known _ _ Hk). cbn [js_add_price]. f_equal. lia.
Qed.

(** A numeric total is reached only from a number and listed coatings. *)
Lemma add_coatings_number cs : forall a z,
  add_coatings a cs = JNum z -> (exists x, a = JNum x) /\ coatings_known cs.
Proof.
  induction cs as [|c cs IH]; intros a z H.
  - cbn in H. subst. split; [eauto | constructor].
  - change (add_coatings a (c :: cs))
      with (add_coatings (js_add a (coatings_get c)) cs) in H.
    apply IH in H as [[x Hx] Hk].
    unfold coatings_get in *.
    destruct (LENS_PRICING.coatings !! c) as [y|] eqn:Hc.
    + split; [destruct a; try done; eauto | constructor; [by rewrite Hc | done]].
    + case_bool_decide; by destruct a.
Qed.

(** Without a key found on Object.prototype, no string is built. *)
Lemma add_coatings_no_string cs : forall a,
  a <> JString ->
  Forall (fun c => coatings_get c <> Inherited) cs ->
  add_coatings a cs <> JString.
Proof.
  induction cs as [|c cs IH]; intros a Ha Hf; [done|].
  inversion Hf as [|? ? Hc Hcs]; subst.
  change (add_coatings a (c :: cs))
    with (add_coatings (js_add a (coatings_get c)) cs).
  apply IH; [|done]. by destruct a, (coatings_get c).
Qed.

Lemma calculateTotal_number product sel z :
  isPower product = true ->
  calculateTotal product sel = JNum z -> coatings_known (coatings sel).
Proof.
  unfold calculateTotal. intros -> H. cbn [js_add] in H.
  destruct (add_coatings _ (coatings sel)) eqn:E; try done.
  by apply add_coatings_number in E as [_ ?].
Qed.




(** C2, as stated, fails: with the coating "Mirror", which the pricing table
    does not list, the calculation for the Wayfarer throws nothing; it ends
    normally with NaN. *)
Lemma C2_unknown_coating_does_not_fail :
  let sel := {| type := Single_Vision; material := Plastic;
                coatings := ["Mirror"]; priceAdjustment := 0 |} in
  isPower wayfarer = true /\
  LENS_PRICING.coatings !! "Mirror" = None /\
  calculateTotal_eval wayfarer sel = Normal JNaN /\
  ~ exists error, calculateTotal_eval wayfarer sel = Throw error.
Proof.
  cbn zeta. repeat split; try by vm_compute.
  intros [error H]. vm_compute in H. congruence.
Qed.

(** C2, amended: if a coating key that is not in the pricing table reaches
    the price calculation for a power-category product, the calculation raises
    no error and its result is not a number, so the unknown key is not priced
    as zero; the result is NaN unless some key of the list names a property
    inherited from Object.prototype. *)
Theorem C2_unknown_coating_gives_not_a_number product sel c :
  isPower product = true ->
  c ∈ coatings sel ->
  LENS_PRICING.coatings !! c = None ->
  (exists v, calculateTotal_eval product sel = Normal v /\ forall z, v <> JNum z)
  /\ (Forall (fun c => c ∉ Object_prototype_keys) (coatings sel) ->
      calculateTotal_eval product sel = Normal JNaN).
Proof.
  intros Hp Hin Hnone.
  assert (Hnum : forall z, calculateTotal product sel <> JNum z).
  { intros z Hz. apply calculateTotal_number in Hz; [|done].
    unfold coatings_known in Hz. rewrite Forall_forall in Hz.
    specialize (Hz c Hin). rewrite Hnone in Hz. by destruct Hz. }
  split; [by eexists|].
  intros Hproto. unfold calculateTotal_eval. f_equal.
  destruct (calculateTotal product sel) eqn:E; [by destruct (Hnum z) | done |].
  exfalso. unfold calculateTotal in E. rewrite Hp in E. cbn [js_add] in E.
  destruct (add_coatings _ (coatings sel)) eqn:E'; try done.
  revert E'. apply add_coatings_no_string; [done|].
  eapply Forall_impl; [exact Hproto|].
  intros c' Hc'. unfold coatings_get.
  destruct (LENS_PRICING.coatings !! c'); [done|]. by rewrite bool_decide_eq_false_2.
Qed.

Lemma C2_witness :
  calculateTotal_eval wayfarer
    {| type := Bifocal; material := Polycarbonate;
       coatings := ["Blue Light"; "Mirror"; "UV Protection"];
       priceAdjustment := 0 |} = Normal JNaN.
Proof.
  refine (proj2 (C2_unknown_coating_gives_not_a_number wayfarer _ "Mirror" _ _ _) _).
  - reflexivity.
  - cbn. set_solver.
  - by vm_compute.
  - cbn. repeat (apply Forall_cons_2; [apply (bool_decide_unpack _); by vm_compute|]).
    apply Forall_nil_2.
Defined.

(** ** Frame lemmas for the handlers *)

Lemma holds_dispatch Q i u w :
  stable Q u -> holds Q w -> holds Q (dispatch i u w).
Proof.
  intros Hs Hw inst. cbn. destruct (current w) as [inst0|] eqn:E; [|done].
  intros [= <-]. by apply Hs, Hw.
Qed.

Lemma stable_of_reads Q u :
  reads_order_only Q ->
  match u with
  | setPrescription _ | setPrescription_spread _ | setLensSelection _ => False
  | _ => True
  end ->
  stable Q u.
Proof.
  intros HQ Hu i inst Hinst. unfold update_instance.
  case_bool_decide; [|done].
  destruct u; try done; apply HQ; done.
Qed.

Section Frames.

Variable JSON_stringify : Prescription -> string.
Variable Q : Instance -> Prop.
Hypothesis Q_reads : reads_order_only Q.

Lemma holds_fetchRecommendation i pData w :
  holds Q w -> holds Q (fetchRecommendation JSON_stringify i pData w).
Proof.
  intros Hw. unfold fetchRecommendation. case_match.
  - apply holds_dispatch; [by apply stable_of_reads | done].
  - unfold call_getLensRecommendation. intros inst. cbn [current].
    apply (holds_dispatch Q i (setIsRecLoading true) w);
      [by apply stable_of_reads | done].
Qed.

Lemma holds_fetchRecommendation_resolved i key rec w :
  holds Q w -> holds Q (fetchRecommendation_resolved i key rec w).
Proof.
  intros Hw. unfold fetchRecommendation_resolved.
  do 2 (apply holds_dispatch; [by apply stable_of_reads |]). exact Hw.
Qed.

Lemma holds_fetchRecommendation_rejected i w :
  holds Q w -> holds Q (fetchRecommendation_rejected i w).
Proof.
  intros Hw. apply holds_dispatch; [by apply stable_of_reads | done].
Qed.

Lemma holds_handleNextStep inst w :
  holds Q w -> holds Q (handleNextStep JSON_stringify inst w).
Proof.
  intros Hw. unfold handleNextStep. repeat case_match;
    try apply holds_fetchRecommendation;
    (apply holds_dispatch; [by apply stable_of_reads | done]).
Qed.

Lemma holds_handleFileUpload inst w :
  holds Q w -> holds Q (handleFileUpload inst w).
Proof.
  intros Hw. unfold handleFileUpload. intros inst'. cbn [with_extractions current].
  apply (holds_dispatch Q (inst_id inst) (setIsAiLoading true) w);
    [by apply stable_of_reads | done].
Qed.

Lemma holds_handleFileUpload_rejected i w :
  holds Q w -> holds Q (handleFileUpload_rejected i w).
Proof.
  intros Hw. unfold handleFileUpload_rejected.
  apply holds_dispatch; [by apply stable_of_reads | done].
Qed.

Lemma holds_handleFileUpload_resolved i data w :
  (forall d, stable Q (setPrescription_spread d)) ->
  holds Q w -> holds Q (handleFileUpload_resolved JSON_stringify i data w).
Proof.
  intros Hd Hw. unfold handleFileUpload_resolved.
  apply holds_dispatch; [by apply stable_of_reads |].
  apply holds_fetchRecommendation. by apply holds_dispatch.
Qed.

End Frames.

(** ** What every reachable state satisfies *)

Lemma lens_frame_reads cs a : reads_order_only (lens_frame cs a).
Proof. intros inst s _ Hl [H1 H2]. unfold lens_frame. cbn. by rewrite Hl. Qed.

Lemma lens_frame_setPrescription cs a p : stable (lens_frame cs a) (setPrescription p).
Proof. intros i inst H. unfold update_instance. by case_bool_decide. Qed.

Lemma lens_frame_setPrescription_spread cs a d :
  stable (lens_frame cs a) (setPrescription_spread d).
Proof. intros i inst H. unfold update_instance. by case_bool_decide. Qed.

Lemma lens_frame_setLensSelection cs a l :
  coatings l = cs -> priceAdjustment l = a -> stable (lens_frame cs a) (setLensSelection l).
Proof. intros H1 H2 i inst H. unfold update_instance. by case_bool_decide. Qed.

Create HintDb frames.

#[local] Hint Resolve lens_frame_reads lens_frame_setPrescription
  lens_frame_setPrescription_spread : frames.

Section Cart_frames.

Variable JSON_stringify : Prescription -> string.

Lemma cart_fetchRecommendation i pData w :
  cart (fetchRecommendation JSON_stringify i pData w) = cart w.
Proof. unfold fetchRecommendation. by case_match. Qed.

Lemma cart_handleNextStep inst w :
  cart (handleNextStep JSON_stringify inst w) = cart w.
Proof.
  unfold handleNextStep. repeat case_match; try done.
  by rewrite cart_fetchRecommendation.
Qed.

Lemma cart_handleFileUpload_resolved i data w :
  cart (handleFileUpload_resolved JSON_stringify i data w) = cart w.
Proof.
  unfold handleFileUpload_resolved. cbn [dispatch cart].
  by rewrite cart_fetchRecommendation.
Qed.

(** Only Finish changes the cart. *)
Lemma cart_handle e w :
  e <> Finish -> cart (handle JSON_stringify e w) = cart w.
Proof.
  intros He. destruct e; cbn [handle]; try done;
    repeat case_match; subst; try done; cbn [handle_ui];
    auto using cart_handleNextStep.
  by rewrite cart_handleFileUpload_resolved.
Qed.

(** No event other than the mounting of a new customizer changes the
    coating list or the [priceAdjustment] of the mounted instance. *)
Lemma handle_lens_frame cs a e w :
  (forall p, e <> Open p) ->
  holds (lens_frame cs a) w -> holds (lens_frame cs a) (handle JSON_stringify e w).
Proof.
  intros He Hcur.
  destruct e; cbn [handle]; repeat case_match; subst; cbn [handle_ui];
    try done;
    try (apply holds_dispatch; [|done]);
    auto using holds_handleNextStep, holds_handleFileUpload,
      holds_handleFileUpload_resolved, holds_handleFileUpload_rejected,
      holds_fetchRecommendation_resolved, holds_fetchRecommendation_rejected,
      stable_of_reads with frames.
  - by destruct (He p).
  - by apply lens_frame_setLensSelection; apply Hcur.
  - by apply lens_frame_setLensSelection; apply Hcur.
Qed.

Lemma step_world_ok w e w' :
  world_ok w -> step_world JSON_stringify w e = Some w' -> world_ok w'.
Proof.
  intros [Hcur Hcart]. unfold step_world. case_match; [|done].
  intros [= <-]. split.
  - assert ((exists p, e = Open p) \/ forall p, e <> Open p) as [[p ->]|He]
      by (destruct e; eauto; right; discriminate).
    + by intros inst [= <-].
    + by apply handle_lens_frame.
  - assert (e = Finish \/ e <> Finish) as [->|He]
      by (destruct e; auto; right; discriminate).
    + cbn [handle]. destruct (current w) as [inst|] eqn:E; [|done].
      cbn. apply Forall_app. split; [done|].
      apply Forall_cons_2; [|apply Forall_nil_2].
      exists inst. split; [done|]. by apply Hcur.
    + by rewrite cart_handle.
Qed.

Lemma reachable_ok w : reachable JSON_stringify w -> world_ok w.
Proof.
  induction 1 as [|w e w' _ IH Hstep].
  - split; [done | constructor].
  - by eapply step_world_ok.
Qed.

Lemma run_reachable tr : forall w w',
  reachable JSON_stringify w -> run JSON_stringify tr w = Some w' ->
  reachable JSON_stringify w'.
Proof.
  induction tr as [|e tr IH]; intros w w' Hw; cbn [run].
  - by intros [= <-].
  - destruct (step_world JSON_stringify w e) as [w1|] eqn:E; [|done].
    apply IH. by eapply reachable_step.
Qed.

End Cart_frames.

(** ** Non-power products *)

(** C5: for a product that is not of the power category, the line item built
    at Finish has the base price as its final price, whatever the lens
    selection in the component state, and null prescription and lens
    selection; Finish is offered at once and commits that item; none of the
    actions of the customization steps is offered; and every non-power line
    item of every reachable cart is of this form. *)
Theorem C5_non_power_item_at_base_price (JSON_stringify : Prescription -> string)
    (w : World) (inst : Instance) :
  current w = Some inst ->
  isPower (inst_product inst) = false ->
  CartLineItem.finalPrice (finished_item inst) = JNum (price (inst_product inst))
  /\ CartLineItem.prescription (finished_item inst) = None
  /\ CartLineItem.lensSelection (finished_item inst) = None
  /\ (exists w', step_world JSON_stringify w Finish = Some w'
        /\ cart w' = (cart w ++ [finished_item inst])%list /\ current w' = None)
  /\ (forall e, step_flow_event e = true -> enabled w e = false)
  /\ (forall w0 it, reachable JSON_stringify w0 -> it ∈ cart w0 ->
        isPower (CartLineItem.product it) = false ->
        CartLineItem.finalPrice it = JNum (price (CartLineItem.product it))
        /\ CartLineItem.prescription it = None
        /\ CartLineItem.lensSelection it = None).
Proof.
  intros Hcur Hp.
  assert (Hitem : forall inst0, isPower (inst_product inst0) = false ->
            CartLineItem.finalPrice (finished_item inst0) = JNum (price (inst_product inst0))
            /\ CartLineItem.prescription (finished_item inst0) = None
            /\ CartLineItem.lensSelection (finished_item inst0) = None).
  { intros inst0 H0. unfold finished_item, calculateTotal. cbn. rewrite H0. cbn.
    repeat split. f_equal. lia. }
  destruct (Hitem inst Hp) as (H1 & H2 & H3).
  repeat split; try done.
  - exists (handle JSON_stringify Finish w). unfold step_world. cbn.
    rewrite Hcur. cbn. by rewrite Hp.
  - intros e He. destruct e; try done; cbn; rewrite Hcur, Hp; done.
  - apply reachable_ok in H as [_ Hc]. rewrite Forall_forall in Hc.
    destruct (Hc _ H0) as (inst0 & -> & _). by apply Hitem.
  - apply reachable_ok in H as [_ Hc]. rewrite Forall_forall in Hc.
    destruct (Hc _ H0) as (inst0 & -> & _). by apply Hitem.
  - apply reachable_ok in H as [_ Hc]. rewrite Forall_forall in Hc.
    destruct (Hc _ H0) as (inst0 & -> & _). by apply Hitem.
Qed.

Lemma C5_witness :
  CartLineItem.finalPrice (finished_item sunglasses_instance) = JNum 159.
Proof.
  refine (proj1 (C5_non_power_item_at_base_price stringify_pd
                   (with_current initial_world (Some sunglasses_instance)) sunglasses_instance _ _));
    reflexivity.
Defined.

(** ** Coatings and priceAdjustment *)

(** C9: in every reachable state the coating list of the session's lens
    selection is empty, no event other than the opening of a new customizer
    changes the coating list of the mounted session, and every committed line
    item that has a lens selection has an empty coating list, a coating
    contribution of 0 and a final price of base price plus type adjustment
    plus material adjustment. *)
Theorem C9_coatings_always_empty (JSON_stringify : Prescription -> string) (w : World) :
  reachable JSON_stringify w ->
  (forall inst, current w = Some inst ->
     coatings (lensSelection (inst_state inst)) = [])
  /\ (forall e w' inst', step_world JSON_stringify w e = Some w' ->
        current w' = Some inst' ->
        coatings (lensSelection (inst_state inst')) = [])
  /\ (forall it sel, it ∈ cart w -> CartLineItem.lensSelection it = Some sel ->
        coatings sel = []
        /\ coatings_sum (coatings sel) = 0
        /\ CartLineItem.finalPrice it =
             JNum (price (CartLineItem.product it) + LENS_PRICING.types (type sel)
                   + LENS_PRICING.materials (material sel))).
Proof.
  intros Hr. pose proof (reachable_ok _ _ Hr) as [Hcur Hcart].
  split; [|split].
  - intros inst Hi. by apply Hcur.
  - intros e w' inst' Hstep Hi.
    assert (Hr' : reachable JSON_stringify w') by (by eapply reachable_step).
    apply reachable_ok in Hr' as [Hcur' _]. by apply Hcur'.
  - intros it sel Hin Hsel. rewrite Forall_forall in Hcart.
    destruct (Hcart _ Hin) as (inst & -> & Hc & Ha).
    cbn in Hsel. destruct (isPower (inst_product inst)) eqn:Hp; [|done].
    injection Hsel as <-. rewrite Hc. repeat split.
    cbn. rewrite calculateTotal_known; [|done|by rewrite Hc; constructor].
    rewrite Hc. f_equal. cbn. lia.
Qed.

Lemma sample_world_reachable : reachable stringify_pd sample_world.
Proof.
  apply (run_reachable stringify_pd sample_trace initial_world);
    [apply reachable_initial | vm_compute; reflexivity].
Qed.

Lemma C9_witness :
  coatings ∘ lensSelection ∘ inst_state <$> current sample_world = Some [].
Proof.
  destruct (current sample_world) as [inst|] eqn:E.
  - cbn. f_equal.
    exact (proj1 (C9_coatings_always_empty stringify_pd sample_world
                    sample_world_reachable) inst E).
  - vm_compute in E. discriminate E.
Defined.

(** C10: the [priceAdjustment] of the session's lens selection starts at 0;
    no event other than the opening of a new customizer changes it in the
    mounted session; the total does not depend on it; and it is 0 in the
    session of every reachable state and in the lens selection of every
    committed line item. *)
Theorem C10_priceAdjustment_never_written (JSON_stringify : Prescription -> string)
    (w : World) :
  reachable JSON_stringify w ->
  priceAdjustment (lensSelection initial_session) = 0
  /\ (forall inst, current w = Some inst ->
        priceAdjustment (lensSelection (inst_state inst)) = 0)
  /\ (forall it sel, it ∈ cart w -> CartLineItem.lensSelection it = Some sel ->
        priceAdjustment sel = 0)
  /\ (forall w0 e a, (forall p, e <> Open p) ->
        holds (fun inst => priceAdjustment (lensSelection (inst_state inst)) = a) w0 ->
        holds (fun inst => priceAdjustment (lensSelection (inst_state inst)) = a)
          (handle JSON_stringify e w0))
  /\ (forall product sel a,
        calculateTotal product
          {| type := type sel; material := material sel; coatings := coatings sel;
             priceAdjustment := a |} = calculateTotal product sel).
Proof.
  intros Hr. pose proof (reachable_ok _ _ Hr) as [Hcur Hcart].
  split; [done|]. split; [|split; [|split]].
  - intros inst Hi. by apply Hcur.
  - intros it sel Hin Hsel. rewrite Forall_forall in Hcart.
    destruct (Hcart _ Hin) as (inst & -> & Hc & Ha).
    cbn in Hsel. destruct (isPower (inst_product inst)); [|done].
    by injection Hsel as <-.
  - intros w0 e a He Hw0 inst Hi.
    destruct (current w0) as [inst0|] eqn:E.
    + eapply (handle_lens_frame JSON_stringify
                (coatings (lensSelection (inst_state inst0))) a e w0 He); [|done].
      intros inst1 H1. rewrite E in H1. injection H1 as <-. split; [done|].
      by apply Hw0.
    + eapply (handle_lens_frame JSON_stringify [] a e w0 He); [|done].
      intros inst1 H1. by rewrite E in H1.
  - done.
Qed.

Lemma C10_witness :
  priceAdjustment ∘ lensSelection ∘ inst_state <$> current sample_world = Some 0.
Proof.
  destruct (current sample_world) as [inst|] eqn:E.
  - cbn. f_equal.
    exact (proj1 (proj2 (C10_priceAdjustment_never_written stringify_pd sample_world
                           sample_world_reachable)) inst E).
  - vm_compute in E. discriminate E.
Defined.

(** ** What the user sees of the order in progress *)

Lemma order_view_dispatch i u w :
  side_update u = true -> order_view (dispatch i u w) = order_view w.
Proof.
  intros Hu. unfold order_view. cbn. destruct (current w) as [inst|]; [|done].
  cbn. unfold update_instance. case_bool_decide; [|done]. by destruct u.
Qed.

Lemma order_view_dispatch_step i u w v :
  order_view w = Some v -> view_id v = i ->
  order_view (dispatch i u w) =
    Some match u with
         | setStep n =>
             {| view_id := view_id v; view_product := view_product v; view_step := n;
                view_prescription := view_prescription v;
                view_lensSelection := view_lensSelection v |}
         | setPrescription p =>
             {| view_id := view_id v; view_product := view_product v;
                view_step := view_step v; view_prescription := p;
                view_lensSelection := view_lensSelection v |}
         | setPrescription_spread d =>
             {| view_id := view_id v; view_product := view_product v;
                view_step := view_step v;
                view_prescription := spread_prescription (view_prescription v) d;
                view_lensSelection := view_lensSelection v |}
         | setLensSelection l =>
             {| view_id := view_id v; view_product := view_product v;
                view_step := view_step v; view_prescription := view_prescription v;
                view_lensSelection := l |}
         | _ => v
         end.
Proof.
  unfold order_view. cbn. destruct (current w) as [inst|]; [|done].
  cbn. intros [= <-] Hi. unfold update_instance. cbn in Hi.
  rewrite bool_decide_eq_true_2 by done. by destruct u.
Qed.

Section Views.

Variable JSON_stringify : Prescription -> string.

Lemma order_view_fetchRecommendation i pData w :
  order_view (fetchRecommendation JSON_stringify i pData w) = order_view w.
Proof.
  unfold fetchRecommendation. case_match.
  - by apply order_view_dispatch.
  - unfold call_getLensRecommendation, order_view. cbn [current].
    by apply (order_view_dispatch i (setIsRecLoading true) w).
Qed.

Lemma order_view_fetchRecommendation_resolved i key rec w :
  order_view (fetchRecommendation_resolved i key rec w) = order_view w.
Proof.
  unfold fetchRecommendation_resolved. by rewrite !order_view_dispatch.
Qed.

Lemma order_view_handleFileUpload_rejected i w :
  order_view (handleFileUpload_rejected i w) = order_view w.
Proof.
  unfold handleFileUpload_rejected. by rewrite order_view_dispatch.
Qed.

(** The completion of an advisory call changes nothing of the order. *)
Lemma order_view_advisory e w :
  match e with AdvisoryResolved _ _ | AdvisoryRejected _ => True | _ => False end ->
  order_view (handle JSON_stringify e w) = order_view w
  /\ cart (handle JSON_stringify e w) = cart w.
Proof.
  destruct e; try done; intros _; cbn [handle]; repeat case_match; subst; try done.
  - split; [by rewrite order_view_fetchRecommendation_resolved | done].
  - split; [|done]. unfold fetchRecommendation_rejected.
    by rewrite order_view_dispatch.
Qed.

(** Whether an action of the user is offered depends on the order only. *)
Lemma enabled_order_view e w w' :
  match e with
  | Open _ | ExtractionResolved _ _ | ExtractionRejected _
  | AdvisoryResolved _ _ | AdvisoryRejected _ => False
  | _ => True
  end ->
  order_view w' = order_view w -> enabled w' e = enabled w e.
Proof.
  unfold order_view. intros He Hv.
  destruct e; try done;
    destruct (current w) as [inst|] eqn:E, (current w') as [inst'|] eqn:E';
    cbn in Hv; try done; cbn; rewrite E, E'; try done;
    injection Hv as _ Hprod Hstep _ _; by rewrite Hprod, Hstep.
Qed.

End Views.

(** ** The merge of an extraction result *)

(** An object spread keeps every top-level key the later operand lacks. *)
Lemma spread_prescription_keeps prev data :
  (prescription_id data = None ->
     prescription_id (spread_prescription prev data) = prescription_id prev)
  /\ (userId data = None -> userId (spread_prescription prev data) = userId prev)
  /\ (rightEye data = None -> rightEye (spread_prescription prev data) = rightEye prev)
  /\ (leftEye data = None -> leftEye (spread_prescription prev data) = leftEye prev)
  /\ (pd data = None -> pd (spread_prescription prev data) = pd prev)
  /\ (fileUrl data = None -> fileUrl (spread_prescription prev data) = fileUrl prev).
Proof. repeat split; intros H; cbn; by rewrite H. Qed.

Lemma order_view_handleFileUpload_resolved JSON_stringify i data w v :
  order_view w = Some v -> view_id v = i ->
  order_view (handleFileUpload_resolved JSON_stringify i data w) =
    Some {| view_id := view_id v; view_product := view_product v;
            view_step := view_step v;
            view_prescription := spread_prescription (view_prescription v) data;
            view_lensSelection := view_lensSelection v |}.
Proof.
  intros Hv Hi. unfold handleFileUpload_resolved.
  rewrite order_view_dispatch by done.
  rewrite order_view_fetchRecommendation.
  by rewrite (order_view_dispatch_step _ _ _ _ Hv Hi).
Qed.

(** C3 fails on the code at a partly filled eye.  In a fresh session on the
    Wayfarer the right eye has cylinder "0.00" and axis "0".  When an
    extraction that returns only the sphere of the right eye is merged, the
    extraction supplied no cylinder and no axis, yet the right eye of the
    session is replaced as a whole: its cylinder and axis are gone.  The left
    eye and the pupillary distance, which the extraction did not return at
    all, are kept. *)
Theorem C3_partial_eye_replaces_whole_eye (JSON_stringify : Prescription -> string) :
  let w := handle JSON_stringify Upload
             (handle JSON_stringify (Open wayfarer) initial_world) in
  let w' := handle JSON_stringify (ExtractionResolved 0 right_sphere_only) w in
  enabled w (ExtractionResolved 0 right_sphere_only) = true
  /\ view_prescription <$> order_view w = Some initial_prescription
  /\ (rightEye initial_prescription ≫= cyl) = Some "0.00"
  /\ (rightEye right_sphere_only ≫= cyl) = None
  /\ view_prescription <$> order_view w' =
       Some {| prescription_id := None; userId := None;
               rightEye := Some {| sph := Some "-1.00"; cyl := None; axis := None |};
               leftEye := Some initial_eye; pd := Some "63"; fileUrl := None |}.
Proof.
  cbn zeta. split; [reflexivity|]. split; [reflexivity|].
  split; [reflexivity|]. split; [reflexivity|].
  change (handle JSON_stringify (ExtractionResolved 0 right_sphere_only)
            (handle JSON_stringify Upload
               (handle JSON_stringify (Open wayfarer) initial_world)))
    with (handleFileUpload_resolved JSON_stringify 0 right_sphere_only
            (with_extractions
               (handle JSON_stringify Upload
                  (handle JSON_stringify (Open wayfarer) initial_world)) [])).
  erewrite order_view_handleFileUpload_resolved by reflexivity. reflexivity.
Qed.

(** ** A failed extraction *)

(** C7: when the extraction call of instance [i] fails, the event is handled
    (nothing is thrown on), the user is shown the message "Could not analyze
    prescription. Please enter manually.", the prescription, the step, the
    lens selection and the cart are what they were, the only setter called is
    setIsAiLoading(false), and each edit of a prescription input is offered
    exactly as before. *)
Theorem C7_failed_extraction_keeps_prescription
    (JSON_stringify : Prescription -> string) (w : World) (k i : nat) :
  extractions w !! k = Some i ->
  exists w',
    step_world JSON_stringify w (ExtractionRejected k) = Some w'
    /\ alerts w' =
         (alerts w ++ ["Could not analyze prescription. Please enter manually."])%list
    /\ order_view w' = order_view w
    /\ cart w' = cart w
    /\ updates w' = (updates w ++ [(i, setIsAiLoading false)])%list
    /\ (forall e, manual_entry_event e = true -> enabled w' e = enabled w e)
    /\ (forall inst', current w' = Some inst' -> inst_id inst' = i ->
          isAiLoading (inst_state inst') = false).
Proof.
  intros Hk. exists (handle JSON_stringify (ExtractionRejected k) w).
  assert (Hv : order_view (handle JSON_stringify (ExtractionRejected k) w) = order_view w).
  { cbn [handle]. rewrite Hk. by rewrite order_view_handleFileUpload_rejected. }
  split; [|split; [|split; [|split; [|split; [|split]]]]].
  - unfold step_world. cbn [enabled]. by rewrite Hk, bool_decide_eq_true_2.
  - cbn [handle]. by rewrite Hk.
  - exact Hv.
  - cbn [handle]. by rewrite Hk.
  - cbn [handle]. by rewrite Hk.
  - intros e He. apply enabled_order_view; [by destruct e | exact Hv].
  - cbn [handle]. rewrite Hk. cbn. destruct (current w) as [inst|]; [|done].
    cbn. unfold update_instance. intros inst' [= <-]. case_bool_decide; [done|].
    by intros.
Qed.

Lemma C7_witness :
  exists w',
    step_world stringify_pd scanning_world (ExtractionRejected 0) = Some w'
    /\ alerts w' = ["Could not analyze prescription. Please enter manually."]
    /\ order_view w' = order_view scanning_world.
Proof.
  destruct (C7_failed_extraction_keeps_prescription stringify_pd scanning_world 0 0)
    as (w' & H1 & H2 & H3 & _); [reflexivity|].
  exists w'. split; [exact H1|]. split; [exact H2 | exact H3].
Defined.

(** ** Calls that complete after the customizer has left the screen *)

Lemma torn_down_dispatch i u w :
  torn_down i w -> current (dispatch i u w) = current w.
Proof.
  intros Ht. cbn. destruct (current w) as [inst|] eqn:E; [|done].
  cbn. unfold update_instance. rewrite bool_decide_eq_false_2; [done|].
  by apply Ht.
Qed.

(** C4, as stated, fails: the Wayfarer customizer is left while its scan is
    in flight.  When the scan completes, the result is not discarded: two
    state setters are called with it, and an advisory request is made for it;
    when that request completes, its text is written to the cache. *)
Lemma C4_result_used_after_teardown :
  let w := left_while_scanning in
  let w1 := handle stringify_pd (ExtractionResolved 0 scanned) w in
  let w2 := handle stringify_pd (AdvisoryResolved 0 (Some "High Index")) w1 in
  current w = None /\ torn_down 0 w /\ extractions w = [0%nat]
  /\ step_world stringify_pd w (ExtractionResolved 0 scanned) = Some w1
  /\ ~ discarded w w1
  /\ updates w1 =
       (updates w ++ [(0%nat, setPrescription_spread scanned);
                      (0%nat, setIsRecLoading true);
                      (0%nat, setIsAiLoading false)])%list
  /\ advisoryCalls w1 = [scanned]
  /\ step_world stringify_pd w1 (AdvisoryResolved 0 (Some "High Index")) = Some w2
  /\ ~ discarded w1 w2
  /\ recommendationCache w1 !! stringify_pd scanned = None
  /\ recommendationCache w2 !! stringify_pd scanned = Some "High Index".
Proof.
  cbn zeta.
  split; [by vm_compute|]. split; [by intros inst H; vm_compute in H|].
  split; [by vm_compute|]. split; [by vm_compute|].
  split; [intros (_ & _ & _ & H & _); vm_compute in H; congruence|].
  split; [by vm_compute|]. split; [by vm_compute|]. split; [by vm_compute|].
  split; [intros (_ & _ & _ & H & _); vm_compute in H; congruence|].
  split; by vm_compute.
Qed.

(** C4, amended: the handlers make no teardown check.  When a call of an
    instance that is no longer on screen completes, its handler runs as for a
    live session: it calls the state setters, which change no state of the
    mounted session or of the cart; a successful extraction is followed by the
    advisory request for its result, with a new external call unless the
    result is cached; and the text of a successful advisory call is stored in
    the recommendation cache. *)
Theorem C4_completion_after_teardown (JSON_stringify : Prescription -> string)
    (w : World) (i : nat) :
  torn_down i w ->
  (forall k data, extractions w !! k = Some i ->
     let w' := handle JSON_stringify (ExtractionResolved k data) w in
     step_world JSON_stringify w (ExtractionResolved k data) = Some w'
     /\ current w' = current w /\ cart w' = cart w
     /\ (if truthy (recommendationCache w !! JSON_stringify data) then
           updates w' =
             (updates w ++
                [(i, setPrescription_spread data);
                 (i, setLensRecommendation
                       (default "" (recommendationCache w !! JSON_stringify data)));
                 (i, setIsAiLoading false)])%list
           /\ advisoryCalls w' = advisoryCalls w
         else
           updates w' =
             (updates w ++
                [(i, setPrescription_spread data); (i, setIsRecLoading true);
                 (i, setIsAiLoading false)])%list
           /\ advisoryCalls w' = (advisoryCalls w ++ [data])%list
           /\ advisories w' = (advisories w ++ [(i, JSON_stringify data)])%list))
  /\ (forall k key rec, advisories w !! k = Some (i, key) ->
        let w' := handle JSON_stringify (AdvisoryResolved k rec) w in
        step_world JSON_stringify w (AdvisoryResolved k rec) = Some w'
        /\ current w' = current w /\ cart w' = cart w
        /\ updates w' =
             (updates w ++ [(i, setLensRecommendation (cleanedRec rec));
                            (i, setIsRecLoading false)])%list
        /\ recommendationCache w' = <[key := cleanedRec rec]> (recommendationCache w)).
Proof.
  intros Ht.
  assert (Hd : forall u w0, current w0 = current w ->
            current (dispatch i u w0) = current w).
  { intros u w0 H0. rewrite torn_down_dispatch; [done|].
    intros inst. rewrite H0. apply Ht. }
  split.
  - intros k data Hk w'. subst w'.
    split; [unfold step_world; cbn [enabled]; by rewrite Hk, bool_decide_eq_true_2|].
    cbn [handle]. rewrite Hk.
    unfold handleFileUpload_resolved, fetchRecommendation.
    cbn [dispatch with_extractions recommendationCache].
    destruct (truthy (recommendationCache w !! JSON_stringify data)) eqn:Hc.
    + split; [by repeat apply Hd|]. split; [done|]. split; [|done].
      cbn [updates dispatch with_extractions]. by rewrite <- !app_assoc.
    + unfold call_getLensRecommendation.
      split; [by repeat first [apply Hd | progress cbn [current]]|].
      split; [done|]. split; [|done].
      cbn [updates dispatch with_extractions]. by rewrite <- !app_assoc.
  - intros k key rec Hk w'. subst w'.
    split; [unfold step_world; cbn [enabled]; by rewrite Hk, bool_decide_eq_true_2|].
    cbn [handle]. rewrite Hk.
    unfold fetchRecommendation_resolved.
    split; [by repeat apply Hd|]. split; [done|]. split; [|done].
    cbn [updates dispatch with_cache with_advisories]. by rewrite <- !app_assoc.
Qed.

Lemma C4_witness :
  step_world stringify_pd left_while_scanning (ExtractionResolved 0 scanned)
  = Some (handle stringify_pd (ExtractionResolved 0 scanned) left_while_scanning)
  /\ current (handle stringify_pd (ExtractionResolved 0 scanned) left_while_scanning)
     = current left_while_scanning.
Proof.
  destruct (proj1 (C4_completion_after_teardown stringify_pd left_while_scanning 0
                     ltac:(by intros inst H; vm_compute in H))
              0%nat scanned eq_refl) as (H1 & H2 & _).
  split; [exact H1 | exact H2].
Defined.

(** ** The recommendation cache *)

Lemma cleanedRec_truthy rec : truthy (Some (cleanedRec rec)) = true.
Proof.
  unfold cleanedRec. destruct (truthy rec) eqn:E; [|done].
  destruct rec as [r|]; [exact E | done].
Qed.

Section Cache.

Variable JSON_stringify : Prescription -> string.

Lemma cache_fetchRecommendation i pData w :
  recommendationCache (fetchRecommendation JSON_stringify i pData w)
  = recommendationCache w.
Proof. unfold fetchRecommendation. by case_match. Qed.

(** An event leaves the cache as it is or stores a text that is not empty. *)
Lemma cache_handle e w :
  recommendationCache (handle JSON_stringify e w) = recommendationCache w
  \/ exists key rec,
       recommendationCache (handle JSON_stringify e w)
       = <[key := cleanedRec rec]> (recommendationCache w).
Proof.
  destruct e; cbn [handle]; repeat case_match; subst; cbn [handle_ui]; auto.
  - left. unfold handleNextStep. repeat case_match; try done.
    by rewrite cache_fetchRecommendation.
  - left. unfold handleFileUpload_resolved. cbn [dispatch recommendationCache].
    by rewrite cache_fetchRecommendation.
  - right. by eexists _, _.
Qed.

(** A text in the cache stays there, or is replaced by another one. *)
Lemma cache_hit_handle key e w :
  truthy (recommendationCache w !! key) = true ->
  truthy (recommendationCache (handle JSON_stringify e w) !! key) = true.
Proof.
  intros Hhit. destruct (cache_handle e w) as [-> | (key' & rec & ->)]; [done|].
  destruct (decide (key' = key)) as [->|Hne].
  - rewrite lookup_insert_eq. apply cleanedRec_truthy.
  - by rewrite lookup_insert_ne.
Qed.

Lemma cache_hit_run key tr : forall w w',
  truthy (recommendationCache w !! key) = true ->
  run JSON_stringify tr w = Some w' ->
  truthy (recommendationCache w' !! key) = true.
Proof.
  induction tr as [|e tr IH]; intros w w' Hhit; cbn [run].
  - by intros [= <-].
  - unfold step_world. destruct (enabled w e); [|done].
    apply IH. by apply cache_hit_handle.
Qed.

(** A request whose key is in the cache does nothing but show the text. *)
Lemma fetchRecommendation_hit i pData w :
  truthy (recommendationCache w !! JSON_stringify pData) = true ->
  exists r,
    recommendationCache w !! JSON_stringify pData = Some r /\ r <> ""
    /\ fetchRecommendation JSON_stringify i pData w
       = dispatch i (setLensRecommendation r) w.
Proof.
  intros Hhit. unfold fetchRecommendation. rewrite Hhit.
  destruct (recommendationCache w !! JSON_stringify pData) as [r|]; [|done].
  exists r. repeat split. intros ->. done.
Qed.

End Cache.

(** C6, as stated, fails, in two ways.  (1) Two scans of the Wayfarer
    session return the same prescription while the advisory call for the first
    is still in flight: two external calls are made for the same input.
    (2) The advisory call made on Next fails; the user goes back and presses
    Next again with the prescription unchanged: a second external call is made
    for the same input. *)
Lemma C6_same_input_two_external_calls :
  (exists w,
     run stringify_pd
       [Open wayfarer; Upload; Upload;
        ExtractionResolved 0 scanned; ExtractionResolved 0 scanned]
       initial_world = Some w
     /\ advisoryCalls w = [scanned; scanned])
  /\ (exists w,
        run stringify_pd
          [Open wayfarer; Next; AdvisoryRejected 0; Goto 1; Next]
          initial_world = Some w
        /\ advisoryCalls w = [initial_prescription; initial_prescription]).
Proof.
  split; eexists; (split; [vm_compute; reflexivity | reflexivity]).
Qed.

(** C6, amended: once the external call of a request has completed
    successfully, a request whose input has the same serialisation is served
    from the cache, whatever happened in between: no external call is made, no
    loading flag is set, and the only effect is that the cached text is shown.
    A first request that misses the cache makes exactly one external call, so
    two such requests in a row make exactly one. *)
Theorem C6_request_after_success_is_served_from_cache
    (JSON_stringify : Prescription -> string)
    (w0 : World) (i j : nat) (p p' : Prescription) (rec : option string)
    (tr : list Event) (w2 : World) :
  truthy (recommendationCache w0 !! JSON_stringify p) = false ->
  JSON_stringify p' = JSON_stringify p ->
  let w1 := fetchRecommendation JSON_stringify i p w0 in
  run JSON_stringify (AdvisoryResolved (length (advisories w0)) rec :: tr) w1 = Some w2 ->
  let w3 := fetchRecommendation JSON_stringify j p' w2 in
  advisoryCalls w1 = (advisoryCalls w0 ++ [p])%list
  /\ (exists r, recommendationCache w2 !! JSON_stringify p = Some r /\ r <> ""
        /\ w3 = dispatch j (setLensRecommendation r) w2)
  /\ advisoryCalls w3 = advisoryCalls w2
  /\ advisories w3 = advisories w2
  /\ recommendationCache w3 = recommendationCache w2
  /\ (forall b, (j, setIsRecLoading b) ∉ drop (length (updates w2)) (updates w3))
  /\ (tr = [] -> advisoryCalls w3 = (advisoryCalls w0 ++ [p])%list).
Proof.
  intros Hmiss Hkey w1 Hrun w3.
  assert (Hw1 : w1 = call_getLensRecommendation i (JSON_stringify p) p
                       (dispatch i (setIsRecLoading true) w0)).
  { subst w1. unfold fetchRecommendation. by rewrite Hmiss. }
  assert (Hadv : advisories w1 !! length (advisories w0) = Some (i, JSON_stringify p)).
  { rewrite Hw1. cbn. by rewrite lookup_app_r, Nat.sub_diag. }
  cbn [run] in Hrun. unfold step_world in Hrun. cbn [enabled] in Hrun.
  rewrite Hadv, bool_decide_eq_true_2 in Hrun by done.
  cbn [handle] in Hrun. rewrite Hadv in Hrun.
  set (wr := fetchRecommendation_resolved _ _ _ _) in Hrun.
  assert (Hhit_r : truthy (recommendationCache wr !! JSON_stringify p) = true).
  { subst wr. unfold fetchRecommendation_resolved. cbn.
    rewrite lookup_insert_eq. apply cleanedRec_truthy. }
  assert (Hhit : truthy (recommendationCache w2 !! JSON_stringify p') = true).
  { rewrite Hkey. by eapply cache_hit_run. }
  destruct (fetchRecommendation_hit JSON_stringify j p' w2 Hhit) as (r & Hr & Hne & Heq).
  fold w3 in Heq.
  split; [by rewrite Hw1|].
  split; [exists r; by rewrite <- Hkey|].
  rewrite Heq. cbn. repeat split.
  - intros b. rewrite drop_app_length. by intros [= ]%list_elem_of_singleton.
  - intros ->. cbn [run] in Hrun. injection Hrun as <-.
    subst wr. unfold fetchRecommendation_resolved. cbn. by rewrite Hw1.
Qed.

Lemma C6_witness :
  advisoryCalls (fetchRecommendation stringify_pd 0 initial_prescription answered_world)
  = advisoryCalls answered_world
  /\ advisoryCalls answered_world = [initial_prescription].
Proof.
  split; [|reflexivity].
  refine (proj1 (proj2 (proj2
            (C6_request_after_success_is_served_from_cache stringify_pd
               opened_world 0 0 initial_prescription initial_prescription
               (Some "Polycarbonate") [EditLeftEye Sph "-0.50"; Upload]
               answered_world _ _ _)))).
  - reflexivity.
  - reflexivity.
  - vm_compute. reflexivity.
Defined.

(** ** Going back and forth between the steps *)

Lemma order_view_current w v :
  order_view w = Some v -> exists inst, current w = Some inst /\ v = view_of inst.
Proof.
  unfold order_view. destruct (current w) as [inst|]; [|done].
  intros [= <-]. by exists inst.
Qed.

Lemma run_app JSON_stringify tr1 : forall tr2 w w',
  run JSON_stringify (tr1 ++ tr2) w = Some w' ->
  exists w1, run JSON_stringify tr1 w = Some w1 /\ run JSON_stringify tr2 w1 = Some w'.
Proof.
  induction tr1 as [|e tr1 IH]; intros tr2 w w'; cbn [app run].
  - intros H. by exists w.
  - destruct (step_world JSON_stringify w e) as [w0|]; [|done]. apply IH.
Qed.

Section Detour.

Variable JSON_stringify : Prescription -> string.

Lemma order_view_handleNextStep inst w :
  current w = Some inst ->
  order_view (handleNextStep JSON_stringify inst w) =
    Some {| view_id := inst_id inst; view_product := inst_product inst;
            view_step := if bool_decide (step (inst_state inst) = 1) then 2
                         else step (inst_state inst) + 1;
            view_prescription := prescription (inst_state inst);
            view_lensSelection := lensSelection (inst_state inst) |}.
Proof.
  intros Hcur.
  assert (Hv : order_view w = Some (view_of inst)) by (unfold order_view; by rewrite Hcur).
  unfold handleNextStep. repeat case_match;
    rewrite ?order_view_fetchRecommendation;
    by rewrite (order_view_dispatch_step _ _ _ _ Hv eq_refl).
Qed.

(** A detour event keeps the order and its prescription, and the cart. *)
Lemma detour_step e w w' v :
  detour_event e = true ->
  order_view w = Some v ->
  step_world JSON_stringify w e = Some w' ->
  cart w' = cart w /\ exists v', order_view w' = Some v' /\ same_prescription v v'.
Proof.
  intros He Hv. unfold step_world. destruct (enabled w e); [|done].
  intros [= <-]. split; [apply cart_handle; by destruct e|].
  destruct (order_view_current _ _ Hv) as (inst & Hcur & ->).
  destruct e; try done; cbn [handle]; rewrite ?Hcur; cbn [handle_ui].
  - rewrite (order_view_handleNextStep _ _ Hcur). by eexists.
  - rewrite (order_view_dispatch_step _ _ _ _ Hv eq_refl). by eexists.
  - rewrite (order_view_dispatch_step _ _ _ _ Hv eq_refl). by eexists.
  - rewrite (order_view_dispatch_step _ _ _ _ Hv eq_refl). by eexists.
  - destruct (order_view_advisory JSON_stringify (AdvisoryResolved k rec) w I)
      as [Hv' _].
    cbn [handle] in Hv'. rewrite Hv', Hv. by eexists.
  - destruct (order_view_advisory JSON_stringify (AdvisoryRejected k) w I)
      as [Hv' _].
    cbn [handle] in Hv'. rewrite Hv', Hv. by eexists.
Qed.

Lemma detour_run tr : forall w w' v,
  Forall (fun e => detour_event e = true) tr ->
  order_view w = Some v ->
  run JSON_stringify tr w = Some w' ->
  cart w' = cart w /\ exists v', order_view w' = Some v' /\ same_prescription v v'.
Proof.
  induction tr as [|e tr IH]; intros w w' v Htr Hv; cbn [run].
  - intros [= <-]. split; [done|]. by exists v.
  - inversion Htr as [|? ? He Htr']; subst.
    destruct (step_world JSON_stringify w e) as [w1|] eqn:E; [|done].
    intros Hrun.
    destruct (detour_step _ _ _ _ He Hv E) as (Hc1 & v1 & Hv1 & H1 & H2 & H3).
    destruct (IH _ _ _ Htr' Hv1 Hrun) as (Hc' & v' & Hv' & H1' & H2' & H3').
    split; [congruence|]. exists v'. split; [done|].
    unfold same_prescription. repeat split; congruence.
Qed.

(** Finish on a power product commits the prescription of the order. *)
Lemma finish_commits w w' v :
  order_view w = Some v ->
  isPower (view_product v) = true ->
  step_world JSON_stringify w Finish = Some w' ->
  exists item,
    cart w' = (cart w ++ [item])%list
    /\ CartLineItem.prescription item = Some (view_prescription v)
    /\ CartLineItem.product item = view_product v.
Proof.
  intros Hv Hp. destruct (order_view_current _ _ Hv) as (inst & Hcur & ->).
  unfold step_world. destruct (enabled w Finish); [|done]. intros [= <-].
  cbn [handle]. rewrite Hcur. cbn [handle_ui]. eexists. split; [done|].
  cbn in *. by rewrite Hp.
Qed.

(** Next is offered at step 1 and leads to step 2. *)
Lemma next_from_step_1 w v :
  order_view w = Some v -> isPower (view_product v) = true -> view_step v = 1 ->
  exists w', step_world JSON_stringify w Next = Some w'
             /\ order_view w' = Some (at_step v 2).
Proof.
  intros Hv Hp Hs. destruct (order_view_current _ _ Hv) as (inst & Hcur & ->).
  cbn in Hp, Hs. exists (handle JSON_stringify Next w). split.
  - unfold step_world. cbn [enabled]. by rewrite Hcur, Hp, Hs.
  - cbn [handle]. rewrite Hcur. cbn [handle_ui].
    rewrite (order_view_handleNextStep _ _ Hcur). by rewrite Hs.
Qed.

(** The buttons of steps 2 and 3 lead to the step they name. *)
Lemma goto_from_step w v n :
  order_view w = Some v -> isPower (view_product v) = true ->
  (view_step v = 2 /\ (n = 1 \/ n = 3)) \/ (view_step v = 3 /\ n = 2) ->
  exists w', step_world JSON_stringify w (Goto n) = Some w'
             /\ order_view w' = Some (at_step v n).
Proof.
  intros Hv Hp Hs. destruct (order_view_current _ _ Hv) as (inst & Hcur & ->).
  cbn in Hp, Hs. exists (handle JSON_stringify (Goto n) w). split.
  - unfold step_world. cbn [enabled]. rewrite Hcur, Hp. cbn [andb].
    destruct Hs as [Hs|Hs].
    + by rewrite (bool_decide_eq_true_2 _ Hs).
    + rewrite (bool_decide_eq_true_2 _ Hs). by rewrite orb_true_r.
  - cbn [handle]. rewrite Hcur. cbn [handle_ui].
    by rewrite (order_view_dispatch_step _ _ _ _ Hv eq_refl).
Qed.

(** Finish is offered at step 3. *)
Lemma finish_from_step_3 w v :
  order_view w = Some v -> view_step v = 3 ->
  is_Some (step_world JSON_stringify w Finish).
Proof.
  intros Hv Hs. destruct (order_view_current _ _ Hv) as (inst & Hcur & ->).
  cbn in Hs. unfold step_world. cbn [enabled]. rewrite Hcur, Hs.
  rewrite bool_decide_eq_true_2 by done. rewrite orb_true_r. by eexists.
Qed.

End Detour.

(** C8: from step 1 of a session on a power product, the sequence Next,
    Back, Next, Review, Finish can be run and commits a line item that carries
    the prescription the session had at step 1; more generally, after any
    sequence of step changes, lens choices and completions of advisory calls
    the session still has that prescription, and a Finish after such a
    sequence commits it. *)
Theorem C8_detour_keeps_prescription (JSON_stringify : Prescription -> string)
    (w : World) (inst : Instance) :
  current w = Some inst ->
  isPower (inst_product inst) = true ->
  step (inst_state inst) = 1 ->
  (exists w' item,
     run JSON_stringify [Next; Goto 1; Next; Goto 3; Finish] w = Some w'
     /\ cart w' = (cart w ++ [item])%list
     /\ CartLineItem.prescription item = Some (prescription (inst_state inst)))
  /\ (forall tr w1,
        Forall (fun e => detour_event e = true) tr ->
        run JSON_stringify tr w = Some w1 ->
        view_prescription <$> order_view w1 = Some (prescription (inst_state inst)))
  /\ (forall tr w',
        Forall (fun e => detour_event e = true) tr ->
        run JSON_stringify (tr ++ [Finish]) w = Some w' ->
        exists item,
          cart w' = (cart w ++ [item])%list
          /\ CartLineItem.prescription item = Some (prescription (inst_state inst))).
Proof.
  intros Hcur Hp Hstep.
  assert (Hv : order_view w = Some (view_of inst)) by (unfold order_view; by rewrite Hcur).
  assert (Hgen : forall tr w',
            Forall (fun e => detour_event e = true) tr ->
            run JSON_stringify (tr ++ [Finish]) w = Some w' ->
            exists item,
              cart w' = (cart w ++ [item])%list
              /\ CartLineItem.prescription item = Some (prescription (inst_state inst))).
  { intros tr w' Htr Hrun.
    apply run_app in Hrun as (w1 & Hrun1 & Hfin). cbn [run] in Hfin.
    destruct (step_world JSON_stringify w1 Finish) as [w2|] eqn:E; [|done].
    injection Hfin as ->.
    destruct (detour_run _ _ _ _ _ Htr Hv Hrun1) as (Hc & v1 & Hv1 & H1 & H2 & H3).
    destruct (finish_commits _ _ _ _ Hv1 ltac:(by rewrite H2) E) as (item & Hi & Hrx & _).
    exists item. split; [by rewrite Hi, Hc | by rewrite Hrx, H3]. }
  split; [|split; [|exact Hgen]].
  - assert (Hrun : is_Some (run JSON_stringify [Next; Goto 1; Next; Goto 3; Finish] w)).
    { destruct (next_from_step_1 JSON_stringify w _ Hv Hp Hstep) as (w1 & E1 & H1).
      destruct (goto_from_step JSON_stringify w1 _ 1 H1 Hp) as (w2 & E2 & H2);
        [left; by split; [|left]|].
      destruct (next_from_step_1 JSON_stringify w2 _ H2 Hp eq_refl) as (w3 & E3 & H3).
      destruct (goto_from_step JSON_stringify w3 _ 3 H3 Hp) as (w4 & E4 & H4);
        [left; by split; [|right]|].
      cbn [run]. rewrite E1, E2, E3, E4.
      destruct (finish_from_step_3 JSON_stringify w4 _ H4 eq_refl) as [w5 ->].
      by eexists. }
    destruct Hrun as [w' Hrun].
    destruct (Hgen [Next; Goto 1; Next; Goto 3] w') as (item & Hi & Hrx).
    { by repeat apply Forall_cons_2; try apply Forall_nil_2. }
    { exact Hrun. }
    by exists w', item.
  - intros tr w1 Htr Hrun.
    destruct (detour_run _ _ _ _ _ Htr Hv Hrun) as (_ & v1 & Hv1 & _ & _ & H3).
    rewrite Hv1. cbn. by rewrite H3.
Qed.

Lemma C8_witness :
  exists w' item,
    run stringify_pd [Next; Goto 1; Next; Goto 3; Finish] edited_world = Some w'
    /\ cart w' = (cart edited_world ++ [item])%list
    /\ CartLineItem.prescription item =
         Some {| prescription_id := None; userId := None;
                 rightEye := Some {| sph := Some "-1.25"; cyl := Some "0.00";
                                     axis := Some "0" |};
                 leftEye := Some initial_eye; pd := Some "61"; fileUrl := None |}.
Proof.
  refine (proj1 (C8_detour_keeps_prescription stringify_pd edited_world
                   edited_instance _ _ _)); reflexivity.
Defined.

(** * The rest of the application: properties *)

(** ** The cart and its totals *)

Lemma filter_index_keep {A} (l : list A) : forall k j,
  (j < k)%nat ->
  (filter (fun ix : nat * A => ix.1 <> j)
     (imap (fun i x => ((k + i)%nat, x)) l)).*2 = l.
Proof.
  induction l as [|x l IH]; intros k j Hj; [done|].
  rewrite imap_cons. rewrite filter_cons_True by (cbn; lia).
  cbn. f_equal.
  rewrite (imap_ext _ (fun i x => ((S k + i)%nat, x))); [by apply IH; lia|].
  intros i y _. cbn. f_equal. lia.
Qed.

Lemma filter_index_delete {A} (l : list A) : forall k idx,
  (filter (fun ix : nat * A => ix.1 <> (k + idx)%nat)
     (imap (fun i x => ((k + i)%nat, x)) l)).*2 = delete idx l.
Proof.
  induction l as [|x l IH]; intros k idx; [done|].
  rewrite imap_cons.
  rewrite (imap_ext _ (fun i x => ((S k + i)%nat, x)))
    by (intros i y _; cbn; f_equal; lia).
  destruct idx as [|n].
  - rewrite filter_cons_False by (cbn; lia). cbn [delete list_delete].
    apply filter_index_keep. lia.
  - rewrite filter_cons_True by (cbn; lia). cbn. f_equal.
    replace (k + S n)%nat with (S k + n)%nat by lia. apply IH.
Qed.

Lemma removeFromCart_delete idx cart : removeFromCart idx cart = delete idx cart.
Proof. exact (filter_index_delete cart 0 idx). Qed.

(** X1: Remove takes out the line item at the given position and nothing
    else: the items before it keep their positions, the items after it move up
    by one, and a position past the end of the cart removes nothing. *)
Theorem removeFromCart_removes_one_position (idx : nat) (cart : list CartLineItem.t) :
  removeFromCart idx cart = (take idx cart ++ drop (S idx) cart)%list
  /\ (forall j, (j < idx)%nat -> removeFromCart idx cart !! j = cart !! j)
  /\ (forall j, (idx <= j)%nat -> removeFromCart idx cart !! j = cart !! S j)
  /\ ((idx < length cart)%nat -> S (length (removeFromCart idx cart)) = length cart)
  /\ ((length cart <= idx)%nat -> removeFromCart idx cart = cart).
Proof.
  rewrite removeFromCart_delete. repeat split.
  - apply delete_take_drop.
  - intros j Hj. by apply list_lookup_delete_lt.
  - intros j Hj. by apply list_lookup_delete_ge.
  - intros Hlt. rewrite length_delete; [lia|]. by apply lookup_lt_is_Some_2.
  - intros Hge. rewrite delete_take_drop, take_ge, drop_ge by lia.
    by rewrite app_nil_r.
Qed.

Lemma removeFromCart_removes_one_position_witness :
  removeFromCart 0 sample_cart !! 0%nat = sample_cart !! 1%nat
  /\ S (length (removeFromCart 0 sample_cart)) = length sample_cart
  /\ removeFromCart 7 sample_cart = sample_cart.
Proof.
  destruct (removeFromCart_removes_one_position 0 sample_cart)
    as (_ & _ & Hup & Hlen & _).
  destruct (removeFromCart_removes_one_position 7 sample_cart)
    as (_ & _ & _ & _ & Hpast).
  split; [apply Hup; lia|]. split; [apply Hlen | apply Hpast]; vm_compute; lia.
Defined.

Lemma charged_not_NaN item : charged item <> JNaN.
Proof.
  unfold charged. destruct (CartLineItem.finalPrice item); cbn; try done.
  by case_bool_decide.
Qed.

Lemma js_plus_not_NaN a b : a <> JNaN -> b <> JNaN -> js_plus a b <> JNaN.
Proof. by destruct a, b. Qed.

Lemma fold_charged_not_NaN cart : forall acc,
  acc <> JNaN ->
  fold_left (fun acc item => js_plus acc (charged item)) cart acc <> JNaN.
Proof.
  induction cart as [|it cart IH]; intros acc Hacc; [done|].
  cbn [fold_left]. apply IH, js_plus_not_NaN; [done | apply charged_not_NaN].
Qed.

(** X2: the subtotal of a cart is never NaN.  A line item whose final price
    is NaN or 0 is charged at the base price of its product instead, so a
    price that the calculation could not compute is not noticed in the cart. *)
Theorem subtotal_never_NaN (cart : list CartLineItem.t) :
  subtotal cart <> JNaN
  /\ (forall item,
        CartLineItem.finalPrice item = JNaN \/ CartLineItem.finalPrice item = JNum 0 ->
        charged item = JNum (price (CartLineItem.product item)))
  /\ (forall item z,
        CartLineItem.finalPrice item = JNum z -> z <> 0 -> charged item = JNum z).
Proof.
  split; [by apply fold_charged_not_NaN|]. split.
  - intros item [H|H]; unfold charged; by rewrite H.
  - intros item z H Hz. unfold charged. rewrite H. cbn.
    by rewrite bool_decide_eq_false_2.
Qed.

Lemma subtotal_never_NaN_witness :
  charged nan_item = JNum 189 /\ subtotal [nan_item] = JNum 189.
Proof.
  split; [|reflexivity].
  apply (proj1 (proj2 (subtotal_never_NaN [nan_item])) nan_item). by left.
Defined.










(** ** The order on screen, event by event *)

Lemma order_view_dispatch_gen i u w :
  order_view (dispatch i u w)
  = (fun v => if bool_decide (view_id v = i) then view_apply u v else v) <$> order_view w.
Proof.
  unfold order_view. cbn. destruct (current w) as [inst|]; [|done].
  cbn. unfold update_instance. case_bool_decide; [|done]. by destruct u.
Qed.

Lemma order_view_dispatch_own i u w inst :
  current w = Some inst -> inst_id inst = i ->
  order_view (dispatch i u w) = view_apply u <$> order_view w.
Proof.
  intros Hcur Hi. rewrite order_view_dispatch_gen. unfold order_view. rewrite Hcur.
  cbn. by rewrite bool_decide_eq_true_2.
Qed.

Lemma order_view_handleFileUpload inst w :
  order_view (handleFileUpload inst w) = order_view w.
Proof.
  unfold handleFileUpload.
  change (order_view (with_extractions ?w0 _)) with (order_view w0).
  by rewrite order_view_dispatch.
Qed.

(** The order after an event depends on the order before it only: neither the
    loading flags, nor the advisory text, nor the cache take part. *)
Lemma order_view_handle JSON_stringify e w :
  order_view (handle JSON_stringify e w) = view_after w e.
Proof.
  destruct e; cbn [handle view_after].
  - done.
  - unfold order_view. destruct (current w) eqn:E; cbn; by rewrite ?E.
  - destruct (current w) as [inst|] eqn:E; [|by unfold order_view; rewrite E].
    cbn [handle_ui]. rewrite (order_view_dispatch_own _ _ _ _ E eq_refl).
    unfold order_view. by rewrite E.
  - destruct (current w) as [inst|] eqn:E; [|by unfold order_view; rewrite E].
    cbn [handle_ui]. rewrite (order_view_dispatch_own _ _ _ _ E eq_refl).
    unfold order_view. by rewrite E.
  - destruct (current w) as [inst|] eqn:E; [|by unfold order_view; rewrite E].
    cbn [handle_ui]. rewrite (order_view_dispatch_own _ _ _ _ E eq_refl).
    unfold order_view. by rewrite E.
  - destruct (current w) as [inst|] eqn:E; [|done].
    cbn [handle_ui]. by rewrite order_view_handleFileUpload.
  - destruct (current w) as [inst|] eqn:E; [|by unfold order_view; rewrite E].
    cbn [handle_ui]. rewrite (order_view_handleNextStep _ _ _ E).
    unfold order_view. by rewrite E.
  - destruct (current w) as [inst|] eqn:E; [|by unfold order_view; rewrite E].
    cbn [handle_ui]. rewrite (order_view_dispatch_own _ _ _ _ E eq_refl).
    unfold order_view. by rewrite E.
  - destruct (current w) as [inst|] eqn:E; [|by unfold order_view; rewrite E].
    cbn [handle_ui]. rewrite (order_view_dispatch_own _ _ _ _ E eq_refl).
    unfold order_view. by rewrite E.
  - destruct (current w) as [inst|] eqn:E; [|by unfold order_view; rewrite E].
    cbn [handle_ui]. rewrite (order_view_dispatch_own _ _ _ _ E eq_refl).
    unfold order_view. by rewrite E.
  - unfold order_view. destruct (current w) eqn:E; cbn; by rewrite ?E.
  - destruct (extractions w !! k) as [i|]; [|done].
    unfold handleFileUpload_resolved.
    rewrite order_view_dispatch by done.
    rewrite order_view_fetchRecommendation.
    by rewrite order_view_dispatch_gen.
  - destruct (extractions w !! k) as [i|]; [|done].
    by rewrite order_view_handleFileUpload_rejected.
  - exact (proj1 (order_view_advisory JSON_stringify (AdvisoryResolved k rec) w I)).
  - exact (proj1 (order_view_advisory JSON_stringify (AdvisoryRejected k) w I)).
Qed.

(** X5: in every reachable state the step of the mounted customizer is 1, 2
    or 3, so one of the three panels is rendered, and it is 1 for a product
    that is not of the power category.  In particular the branch of
    handleNextStep that adds 1 to the step is never taken from the page. *)
Theorem step_always_in_range (JSON_stringify : Prescription -> string) (w : World) :
  reachable JSON_stringify w ->
  forall v, order_view w = Some v -> step_in_range v.
Proof.
  induction 1 as [|w e w' Hr IH Hstep]; [done|].
  unfold step_world in Hstep. destruct (enabled w e) eqn:Hen; [|done].
  injection Hstep as <-. intros v'. rewrite order_view_handle.
  unfold order_view in IH.
  assert (Hfresh : forall p, step_in_range
            {| view_id := next_id w; view_product := p; view_step := 1;
               view_prescription := initial_prescription;
               view_lensSelection := initial_lensSelection |}).
  { intros p. split; cbn; auto. }
  destruct (current w) as [inst|] eqn:E; cbn in IH.
  2: { destruct e; cbn [view_after] in *; unfold order_view; rewrite ?E;
         try done; try (intros [= <-]; apply Hfresh).
       by destruct (extractions w !! k). }
  specialize (IH _ eq_refl). destruct IH as [IH1 IH2]. cbn in IH1, IH2.
  destruct e; cbn [view_after enabled] in *; unfold order_view; rewrite ?E in *;
    cbn [fmap option_fmap option_map];
    try done; try (intros [= <-]; apply Hfresh);
    try (intros [= <-]; split; cbn; done).
  - rewrite andb_true_iff in Hen. destruct Hen as [Hp Hs].
    apply bool_decide_eq_true in Hs. intros [= <-]. split; cbn.
    + rewrite bool_decide_eq_true_2 by done. auto.
    + intros Hnp. congruence.
  - rewrite andb_true_iff in Hen. destruct Hen as [Hp Hs]. intros [= <-].
    split; cbn; [|intros Hnp; congruence].
    rewrite orb_true_iff in Hs. rewrite !bool_decide_eq_true in Hs. lia.
  - destruct (extractions w !! k) as [i|]; cbn; intros [= <-];
      [destruct (bool_decide (inst_id inst = i))|]; split; cbn; done.
Qed.

Lemma step_always_in_range_witness :
  exists v, order_view sample_world = Some v /\ step_in_range v.
Proof.
  destruct (order_view sample_world) as [v|] eqn:E.
  - exists v. split; [done|].
    exact (step_always_in_range stringify_pd sample_world sample_world_reachable v E).
  - vm_compute in E. discriminate E.
Defined.

(** ** Edits and merges of the prescription *)







(** X8: an extraction that returns no field at all (the empty object, which
    analyzePrescriptionImage parses when the response has no text) leaves the
    order on screen as it was and shows no message, but an advisory request is
    still made for the empty object, with an external call unless its key is
    cached.  Merging the same result twice gives what merging it once gives. *)
Theorem empty_scan_result_keeps_prescription
    (JSON_stringify : Prescription -> string) (w : World) (k i : nat) :
  extractions w !! k = Some i ->
  let w' := handle JSON_stringify (ExtractionResolved k empty_result) w in
  order_view w' = order_view w
  /\ alerts w' = alerts w
  /\ cart w' = cart w
  /\ (truthy (recommendationCache w !! JSON_stringify empty_result) = false ->
      advisoryCalls w' = (advisoryCalls w ++ [empty_result])%list)
  /\ (truthy (recommendationCache w !! JSON_stringify empty_result) = true ->
      advisoryCalls w' = advisoryCalls w)
  /\ (forall p d, spread_prescription (spread_prescription p d) d = spread_prescription p d)
  /\ (forall p, spread_prescription p empty_result = p).
Proof.
  intros Hk w'. subst w'.
  assert (Hid : forall p, spread_prescription p empty_result = p) by (by intros []).
  split; [|split; [|split; [|split; [|split; [|split]]]]].
  - rewrite order_view_handle. cbn [view_after]. rewrite Hk.
    destruct (order_view w) as [v|]; [|done]. cbn. f_equal.
    case_bool_decide; [|done]. unfold with_view_prescription. rewrite Hid. by destruct v.
  - cbn [handle]. rewrite Hk. unfold handleFileUpload_resolved, fetchRecommendation.
    cbn. by case_match.
  - by apply cart_handle.
  - intros Hmiss. cbn [handle]. rewrite Hk.
    unfold handleFileUpload_resolved, fetchRecommendation. cbn.
    by rewrite Hmiss.
  - intros Hhit. cbn [handle]. rewrite Hk.
    unfold handleFileUpload_resolved, fetchRecommendation. cbn.
    by rewrite Hhit.
  - intros p d. unfold spread_prescription, spread_key. cbn.
    f_equal; by case_match.
  - exact Hid.
Qed.

Lemma empty_scan_result_keeps_prescription_witness :
  order_view (handle stringify_pd (ExtractionResolved 0 empty_result) scanning_world)
  = order_view scanning_world.
Proof.
  refine (proj1 (empty_scan_result_keeps_prescription stringify_pd scanning_world
                   0 0 _)).
  reflexivity.
Defined.

(** ** Flags, advisory texts and calls *)

Lemma elem_of_delete_other {A} (l : list A) k x y :
  l !! k = Some y -> x ∈ l -> x <> y -> x ∈ delete k l.
Proof.
  intros Hk Hx Hne. apply list_elem_of_lookup in Hx as [j Hj].
  assert (j <> k) by (intros ->; congruence).
  apply list_elem_of_lookup.
  destruct (decide (j < k)%nat).
  - exists j. by rewrite list_lookup_delete_lt.
  - exists (pred j). rewrite list_lookup_delete_ge by lia.
    by replace (S (pred j)) with j by lia.
Qed.

Lemma truthy_Some r : truthy (Some r) = true -> r <> "".
Proof. cbn. by case_bool_decide. Qed.

Lemma truthy_default o : truthy o = true -> default "" o <> "".
Proof. destruct o as [r|]; [apply truthy_Some | done]. Qed.

Lemma cleanedRec_not_empty rec : cleanedRec rec <> "".
Proof. apply truthy_Some, cleanedRec_truthy. Qed.

Lemma update_instance_id i u inst : inst_id (update_instance i u inst) = inst_id inst.
Proof. unfold update_instance. by case_bool_decide. Qed.

Lemma update_instance_own i u inst :
  inst_id inst = i ->
  update_instance i u inst
  = {| inst_id := inst_id inst; inst_product := inst_product inst;
       inst_state := apply_update u (inst_state inst) |}.
Proof. intros H. unfold update_instance. by rewrite bool_decide_eq_true_2. Qed.

Lemma update_instance_other i u inst :
  inst_id inst <> i -> update_instance i u inst = inst.
Proof. intros H. unfold update_instance. by rewrite bool_decide_eq_false_2. Qed.

(** Rewrites the setter calls of the owner [i] into their effect on the state,
    and drops those of another instance. *)
Ltac own_updates :=
  repeat (rewrite update_instance_own
            by (rewrite ?update_instance_id; cbn [inst_id]; congruence));
  cbn [inst_id inst_product inst_state].

Ltac other_updates :=
  repeat (rewrite update_instance_other
            by (rewrite ?update_instance_id; cbn [inst_id]; congruence)).

(** Exposes the mounted instance after the handlers have run. *)
Ltac expose_current E :=
  cbn [current dispatch call_getLensRecommendation with_cache with_current
       with_extractions with_advisories with_alert with_cart];
  rewrite ?E; cbn [fmap option_fmap option_map].

Section Flags.

Variable JSON_stringify : Prescription -> string.

Lemma loading_has_call_step w e :
  loading_has_call w -> loading_has_call (handle JSON_stringify e w).
Proof.
  intros Hw inst'.
  assert (Hsimple : forall inst u,
            current w = Some inst ->
            (forall b, u <> setIsRecLoading b) ->
            current (dispatch (inst_id inst) u w) = Some inst' ->
            isRecLoading (inst_state inst') = true ->
            exists key, (inst_id inst', key) ∈ advisories w).
  { intros inst u E Hu. expose_current E. own_updates. intros [= <-]. cbn.
    destruct u; cbn; try (by apply Hw). by destruct (Hu b). }
  destruct e; cbn [handle].
  - (* Open *) cbn. by intros [= <-].
  - (* NavigateAway *)
    destruct (current w) as [inst|] eqn:E; [|by apply Hw]. cbn. done.
  - destruct (current w) as [inst|] eqn:E; [|by apply Hw]. by apply Hsimple.
  - destruct (current w) as [inst|] eqn:E; [|by apply Hw]. by apply Hsimple.
  - destruct (current w) as [inst|] eqn:E; [|by apply Hw]. by apply Hsimple.
  - (* Upload *)
    destruct (current w) as [inst|] eqn:E; [|by apply Hw]. by apply Hsimple.
  - (* Next *)
    destruct (current w) as [inst|] eqn:E; [|by apply Hw]. cbn [handle_ui].
    unfold handleNextStep, fetchRecommendation.
    repeat case_match; expose_current E; own_updates; intros [= <-]; cbn;
      try (by apply Hw).
    intros _. eexists. apply elem_of_app. right. by apply list_elem_of_singleton.
  - destruct (current w) as [inst|] eqn:E; [|by apply Hw]. by apply Hsimple.
  - destruct (current w) as [inst|] eqn:E; [|by apply Hw]. by apply Hsimple.
  - destruct (current w) as [inst|] eqn:E; [|by apply Hw]. by apply Hsimple.
  - (* Finish *)
    destruct (current w) as [inst|] eqn:E; [|by apply Hw]. cbn. done.
  - (* ExtractionResolved *)
    destruct (extractions w !! k) as [i|] eqn:Hk; [|by apply Hw].
    unfold handleFileUpload_resolved, fetchRecommendation.
    destruct (current w) as [inst|] eqn:E; [|by case_match; expose_current E].
    case_match; expose_current E;
      (destruct (decide (inst_id inst = i)) as [Hi|Hi];
       [own_updates | other_updates]); intros [= <-]; cbn; intros Hl;
      try (by apply Hw).
    + eexists. apply elem_of_app. right. apply list_elem_of_singleton. by rewrite Hi.
    + destruct (Hw _ E Hl) as [key Hkey]. exists key. apply elem_of_app. by left.
  - (* ExtractionRejected *)
    destruct (extractions w !! k) as [i|] eqn:Hk; [|by apply Hw].
    unfold handleFileUpload_rejected.
    destruct (current w) as [inst|] eqn:E; [|by expose_current E].
    expose_current E.
    (destruct (decide (inst_id inst = i)) as [Hi|Hi];
     [own_updates | other_updates]); intros [= <-]; cbn; by apply Hw.
  - (* AdvisoryResolved *)
    destruct (advisories w !! k) as [[i key0]|] eqn:Hk; [|by apply Hw].
    unfold fetchRecommendation_resolved.
    destruct (current w) as [inst|] eqn:E; [|by expose_current E].
    expose_current E.
    destruct (decide (inst_id inst = i)) as [Hi|Hi]; [own_updates | other_updates].
    + by intros [= <-].
    + intros [= <-] Hl.
      destruct (Hw _ E Hl) as [key Hkey]. exists key. cbn.
      eapply elem_of_delete_other; [exact Hk | done | congruence].
  - (* AdvisoryRejected *)
    destruct (advisories w !! k) as [[i key0]|] eqn:Hk; [|by apply Hw].
    unfold fetchRecommendation_rejected.
    destruct (current w) as [inst|] eqn:E; [|by expose_current E].
    expose_current E.
    destruct (decide (inst_id inst = i)) as [Hi|Hi]; [own_updates | other_updates].
    + by intros [= <-].
    + intros [= <-] Hl.
      destruct (Hw _ E Hl) as [key Hkey]. exists key. cbn.
      eapply elem_of_delete_other; [exact Hk | done | congruence].
Qed.

Lemma advice_not_empty_step w e :
  advice_not_empty w -> advice_not_empty (handle JSON_stringify e w).
Proof.
  intros [Hcache Hcur]. split.
  - intros key r. destruct (cache_handle JSON_stringify e w) as [-> | (key' & rec & ->)].
    + apply Hcache.
    + destruct (decide (key' = key)) as [->|Hne].
      * rewrite lookup_insert_eq. intros [= <-]. apply cleanedRec_not_empty.
      * rewrite lookup_insert_ne by done. apply Hcache.
  - intros inst' r.
    assert (Hsimple : forall inst u,
              current w = Some inst ->
              (forall t, u = setLensRecommendation t -> t <> "") ->
              current (dispatch (inst_id inst) u w) = Some inst' ->
              lensRecommendation (inst_state inst') = Some r -> r <> "").
    { intros inst u E Hu. expose_current E. own_updates. intros [= <-]. cbn.
      destruct u; cbn; try (by apply Hcur). intros [= <-]. by apply Hu. }
    destruct e; cbn [handle].
    + cbn. by intros [= <-].
    + destruct (current w) as [inst|] eqn:E; [|by rewrite E]. cbn. done.
    + destruct (current w) as [inst|] eqn:E; [|by rewrite E]. by apply Hsimple.
    + destruct (current w) as [inst|] eqn:E; [|by rewrite E]. by apply Hsimple.
    + destruct (current w) as [inst|] eqn:E; [|by rewrite E]. by apply Hsimple.
    + destruct (current w) as [inst|] eqn:E; [|by rewrite E]. by apply Hsimple.
    + destruct (current w) as [inst|] eqn:E; [|by rewrite E]. cbn [handle_ui].
      unfold handleNextStep, fetchRecommendation.
      repeat case_match; expose_current E; own_updates; intros [= <-]; cbn;
        try (by apply Hcur).
      intros [= <-]. by apply truthy_default.
    + destruct (current w) as [inst|] eqn:E; [|by rewrite E]. by apply Hsimple.
    + destruct (current w) as [inst|] eqn:E; [|by rewrite E]. by apply Hsimple.
    + destruct (current w) as [inst|] eqn:E; [|by rewrite E]. by apply Hsimple.
    + destruct (current w) as [inst|] eqn:E; [|by rewrite E]. cbn. done.
    + destruct (extractions w !! k) as [i|] eqn:Hk; [|by apply Hcur].
      unfold handleFileUpload_resolved, fetchRecommendation.
      destruct (current w) as [inst|] eqn:E; [|by case_match; expose_current E].
      case_match; expose_current E;
        (destruct (decide (inst_id inst = i)) as [Hi|Hi];
         [own_updates | other_updates]); intros [= <-]; cbn;
        try (by apply Hcur).
      intros [= <-]. by apply truthy_default.
    + destruct (extractions w !! k) as [i|] eqn:Hk; [|by apply Hcur].
      unfold handleFileUpload_rejected.
      destruct (current w) as [inst|] eqn:E; [|by expose_current E].
      expose_current E.
      (destruct (decide (inst_id inst = i)) as [Hi|Hi];
       [own_updates | other_updates]); intros [= <-]; cbn; by apply Hcur.
    + destruct (advisories w !! k) as [[i key0]|] eqn:Hk; [|by apply Hcur].
      unfold fetchRecommendation_resolved.
      destruct (current w) as [inst|] eqn:E; [|by expose_current E].
      expose_current E.
      destruct (decide (inst_id inst = i)) as [Hi|Hi]; [own_updates | other_updates];
        intros [= <-]; cbn; [|by apply Hcur].
      intros [= <-]. apply cleanedRec_not_empty.
    + destruct (advisories w !! k) as [[i key0]|] eqn:Hk; [|by apply Hcur].
      unfold fetchRecommendation_rejected.
      destruct (current w) as [inst|] eqn:E; [|by expose_current E].
      expose_current E.
      destruct (decide (inst_id inst = i)) as [Hi|Hi]; [own_updates | other_updates];
        intros [= <-]; cbn; by apply Hcur.
Qed.

(** What an event does to the external calls: nothing; or one call is made,
    for an input whose key has no text in the cache; or one call in flight
    completes, and its text, if any, is stored under its key. *)
Lemma calls_step e w :
  let w' := handle JSON_stringify e w in
  (advisoryCalls w' = advisoryCalls w /\ advisories w' = advisories w
   /\ recommendationCache w' = recommendationCache w)
  \/ (exists i p,
        advisoryCalls w' = (advisoryCalls w ++ [p])%list
        /\ advisories w' = (advisories w ++ [(i, JSON_stringify p)])%list
        /\ recommendationCache w' = recommendationCache w
        /\ truthy (recommendationCache w !! JSON_stringify p) = false)
  \/ (exists k i key,
        advisories w !! k = Some (i, key)
        /\ advisoryCalls w' = advisoryCalls w
        /\ advisories w' = delete k (advisories w)
        /\ (recommendationCache w' = recommendationCache w
            \/ exists rec, recommendationCache w'
                           = <[key := cleanedRec rec]> (recommendationCache w))).
Proof.
  cbn zeta. destruct e; cbn [handle]; try (left; by repeat split).
  all: try (destruct (current w) as [inst|] eqn:E; cbn [handle_ui];
            left; by repeat split).
  - (* Next *)
    destruct (current w) as [inst|] eqn:E; [|left; by repeat split]. cbn [handle_ui].
    unfold handleNextStep, fetchRecommendation.
    repeat case_match; try (left; by repeat split).
    right. left. eexists _, _. cbn. repeat split. by cbn in *.
  - (* ExtractionResolved *)
    destruct (extractions w !! k) as [i|]; [|left; by repeat split].
    unfold handleFileUpload_resolved, fetchRecommendation.
    case_match; [left; by repeat split|].
    right. left. eexists _, _. cbn. repeat split. by cbn in *.
  - destruct (extractions w !! k) as [i|]; left; by repeat split.
  - destruct (advisories w !! k) as [[i key]|] eqn:Hk; [|left; by repeat split].
    right. right. exists k, i, key. split; [done|]. split; [done|]. split; [done|].
    right. by eexists.
  - destruct (advisories w !! k) as [[i key]|] eqn:Hk; [|left; by repeat split].
    right. right. exists k, i, key. split; [done|]. split; [done|]. split; [done|].
    by left.
Qed.

Lemma keys_were_called_step w e :
  keys_were_called JSON_stringify w ->
  keys_were_called JSON_stringify (handle JSON_stringify e w).
Proof.
  intros [Hcache Hadv].
  destruct (calls_step e w)
    as [(Hc & Ha & Hm) | [(i & p & Hc & Ha & Hm & _) | (k & i & key & Hk & Hc & Ha & Hm)]];
    unfold keys_were_called; rewrite Hc, Ha; split.
  - rewrite Hm. apply Hcache.
  - apply Hadv.
  - rewrite Hm. intros key Hkey. destruct (Hcache key Hkey) as (q & Hq & <-).
    exists q. split; [apply elem_of_app; by left | done].
  - intros j key [Hin|Hin]%elem_of_app.
    + destruct (Hadv j key Hin) as (q & Hq & <-).
      exists q. split; [apply elem_of_app; by left | done].
    + apply list_elem_of_singleton in Hin. injection Hin as -> ->.
      exists p. split; [apply elem_of_app; right; by apply list_elem_of_singleton | done].
  - destruct Hm as [-> | [rec ->]]; [apply Hcache|].
    intros key' Hkey'. destruct (decide (key = key')) as [<-|Hne].
    + apply (Hadv i key). by eapply list_elem_of_lookup_2.
    + rewrite lookup_insert_ne in Hkey' by done. by apply Hcache.
  - intros j key' Hin. apply (Hadv j key'). by eapply list_elem_of_delete_inv.
Qed.

(** The three properties hold in every reachable state. *)
Lemma reachable_flags w :
  reachable JSON_stringify w ->
  loading_has_call w /\ advice_not_empty w /\ keys_were_called JSON_stringify w.
Proof.
  induction 1 as [|w e w' _ (IH1 & IH2 & IH3) Hstep].
  - split; [done|]. split; split.
    + intros key r Hr. cbn in Hr. by rewrite lookup_empty in Hr.
    + done.
    + intros key [r Hr]. cbn in Hr. by rewrite lookup_empty in Hr.
    + intros i key Hin. by apply elem_of_nil in Hin.
  - unfold step_world in Hstep. destruct (enabled w e); [|done].
    injection Hstep as <-.
    auto using loading_has_call_step, advice_not_empty_step, keys_were_called_step.
Qed.

End Flags.

(** X9: in every reachable state, if the advisory loading flag of the
    mounted customizer is set, an advisory call made by that customizer is in
    flight; the completion of the call, successful or not, resets the flag. *)
Theorem advisory_flag_only_while_call_in_flight
    (JSON_stringify : Prescription -> string) (w : World) :
  reachable JSON_stringify w ->
  (forall inst, current w = Some inst ->
     isRecLoading (inst_state inst) = true ->
     exists key, (inst_id inst, key) ∈ advisories w)
  /\ (forall k i key inst' e,
        advisories w !! k = Some (i, key) ->
        (exists rec, e = AdvisoryResolved k rec) \/ e = AdvisoryRejected k ->
        current (handle JSON_stringify e w) = Some inst' ->
        inst_id inst' = i ->
        isRecLoading (inst_state inst') = false).
Proof.
  intros Hr. split; [exact (proj1 (reachable_flags _ _ Hr))|].
  intros k i key inst' e Hk He.
  destruct He as [[rec ->] | ->]; cbn [handle]; rewrite Hk;
    unfold fetchRecommendation_resolved, fetchRecommendation_rejected;
    (destruct (current w) as [inst|] eqn:E; [|by expose_current E]);
    expose_current E; intros [= <-]; rewrite ?update_instance_id; intros Hi;
    own_updates; done.
Qed.

Lemma requested_world_reachable : reachable stringify_pd requested_world.
Proof.
  apply (run_reachable stringify_pd [Open wayfarer; Next] initial_world);
    [apply reachable_initial | vm_compute; reflexivity].
Qed.

Lemma advised_world_reachable : reachable stringify_pd advised_world.
Proof.
  apply (run_reachable stringify_pd
           [Open wayfarer; Next; AdvisoryResolved 0 (Some "High Index")] initial_world);
    [apply reachable_initial | vm_compute; reflexivity].
Qed.

Lemma advisory_flag_only_while_call_in_flight_witness :
  exists key, (0%nat, key) ∈ advisories requested_world.
Proof.
  refine (proj1 (advisory_flag_only_while_call_in_flight stringify_pd requested_world
                   requested_world_reachable)
            {| inst_id := 0; inst_product := wayfarer;
               inst_state :=
                 {| step := 2; prescription := initial_prescription;
                    lensSelection := initial_lensSelection;
                    isAiLoading := false; lensRecommendation := None;
                    isRecLoading := true |} |} _ _); reflexivity.
Defined.

(** X10: in every reachable state no text in the recommendation cache and no
    advisory text on screen is empty: an advisory call that returns no text or
    the empty text is answered with the stock sentence, and a text that is not
    empty is kept as it is. *)
Theorem advice_texts_never_empty (JSON_stringify : Prescription -> string) (w : World) :
  reachable JSON_stringify w ->
  (forall key r, recommendationCache w !! key = Some r -> r <> "")
  /\ (forall inst r, current w = Some inst ->
        lensRecommendation (inst_state inst) = Some r -> r <> "")
  /\ cleanedRec None = "Based on your data, standard materials are suitable."
  /\ cleanedRec (Some "") = "Based on your data, standard materials are suitable."
  /\ (forall r, r <> "" -> cleanedRec (Some r) = r).
Proof.
  intros Hr. destruct (reachable_flags _ _ Hr) as (_ & [H1 H2] & _).
  repeat split; try done.
  intros r Hne. unfold cleanedRec. cbn. by rewrite bool_decide_eq_false_2.
Qed.

Lemma advice_texts_never_empty_witness :
  recommendationCache advised_world !! "{pd:63}" = Some "High Index"
  /\ "High Index" <> "".
Proof.
  assert (H : recommendationCache advised_world !! "{pd:63}" = Some "High Index")
    by (vm_compute; reflexivity).
  split; [exact H|].
  exact (proj1 (advice_texts_never_empty stringify_pd advised_world
                  advised_world_reachable) "{pd:63}" "High Index" H).
Defined.

(** X11: in every reachable state every key of the recommendation cache is
    the serialisation of the argument of an external advisory call that was
    made, and so is the key awaited by every call in flight; an event makes at
    most one external call, and only for an input whose key has no text in the
    cache. *)
Theorem cache_holds_answers_to_calls_made
    (JSON_stringify : Prescription -> string) (w : World) :
  reachable JSON_stringify w ->
  (forall key, is_Some (recommendationCache w !! key) ->
     exists p, p ∈ advisoryCalls w /\ JSON_stringify p = key)
  /\ (forall i key, (i, key) ∈ advisories w ->
        exists p, p ∈ advisoryCalls w /\ JSON_stringify p = key)
  /\ (forall e,
        advisoryCalls (handle JSON_stringify e w) = advisoryCalls w
        \/ exists p, advisoryCalls (handle JSON_stringify e w)
                     = (advisoryCalls w ++ [p])%list
                     /\ truthy (recommendationCache w !! JSON_stringify p) = false).
Proof.
  intros Hr. destruct (reachable_flags _ _ Hr) as (_ & _ & [H1 H2]).
  split; [exact H1|]. split; [exact H2|].
  intros e.
  destruct (calls_step JSON_stringify e w)
    as [(Hc & _) | [(i & p & Hc & _ & _ & Hm) | (k & i & key & _ & Hc & _)]];
    eauto.
Qed.

Lemma cache_holds_answers_to_calls_made_witness :
  exists p, p ∈ advisoryCalls advised_world /\ stringify_pd p = "{pd:63}".
Proof.
  refine (proj1 (cache_holds_answers_to_calls_made stringify_pd advised_world
                   advised_world_reachable) "{pd:63}" _).
  vm_compute. by eexists.
Defined.

Section Stale_advice.

Variable JSON_stringify : Prescription -> string.

Lemma advice_shown_step w e :
  same_session_without_scan_result e = true ->
  advice_shown w ->
  advice_shown (handle JSON_stringify e w)
  /\ advisoryCalls (handle JSON_stringify e w) = advisoryCalls w.
Proof.
  intros He Hw.
  assert (Hsimple : forall inst u,
            current w = Some inst ->
            (forall t, u <> setLensRecommendation t) ->
            advice_shown (dispatch (inst_id inst) u w)).
  { intros inst u E Hu inst'. expose_current E. own_updates. intros [= <-]. cbn.
    destruct u; cbn; try (by apply Hw). by destruct (Hu r). }
  destruct e; try done; cbn [handle].
  - destruct (current w) as [inst|] eqn:E; [|done]. by split.
  - destruct (current w) as [inst|] eqn:E; [|done]. split; [by apply Hsimple | done].
  - destruct (current w) as [inst|] eqn:E; [|done]. split; [by apply Hsimple | done].
  - destruct (current w) as [inst|] eqn:E; [|done]. split; [by apply Hsimple | done].
  - destruct (current w) as [inst|] eqn:E; [|done]. split; [by apply Hsimple | done].
  - (* Next *)
    destruct (current w) as [inst|] eqn:E; [|done]. cbn [handle_ui].
    unfold handleNextStep. rewrite (Hw _ E). cbn [negb andb].
    case_match; (split; [by apply Hsimple | done]).
  - destruct (current w) as [inst|] eqn:E; [|done]. split; [by apply Hsimple | done].
  - destruct (current w) as [inst|] eqn:E; [|done]. split; [by apply Hsimple | done].
  - destruct (current w) as [inst|] eqn:E; [|done]. split; [by apply Hsimple | done].
  - destruct (current w) as [inst|] eqn:E; [|done]. by split.
  - (* ExtractionRejected *)
    destruct (extractions w !! k) as [i|] eqn:Hk; [|done]. split; [|done].
    unfold handleFileUpload_rejected. intros inst'.
    destruct (current w) as [inst|] eqn:E; [|by expose_current E].
    expose_current E.
    (destruct (decide (inst_id inst = i)) as [Hi|Hi];
     [own_updates | other_updates]); intros [= <-]; cbn; by apply Hw.
  - (* AdvisoryResolved *)
    destruct (advisories w !! k) as [[i key0]|] eqn:Hk; [|done]. split; [|done].
    unfold fetchRecommendation_resolved. intros inst'.
    destruct (current w) as [inst|] eqn:E; [|by expose_current E].
    expose_current E.
    destruct (decide (inst_id inst = i)) as [Hi|Hi]; [own_updates | other_updates];
      intros [= <-]; [|by apply Hw].
    apply cleanedRec_truthy.
  - (* AdvisoryRejected *)
    destruct (advisories w !! k) as [[i key0]|] eqn:Hk; [|done]. split; [|done].
    unfold fetchRecommendation_rejected. intros inst'.
    destruct (current w) as [inst|] eqn:E; [|by expose_current E].
    expose_current E.
    destruct (decide (inst_id inst = i)) as [Hi|Hi]; [own_updates | other_updates];
      intros [= <-]; cbn; by apply Hw.
Qed.

Lemma advice_shown_run tr : forall w w',
  Forall (fun e => same_session_without_scan_result e = true) tr ->
  advice_shown w ->
  run JSON_stringify tr w = Some w' ->
  advice_shown w' /\ advisoryCalls w' = advisoryCalls w.
Proof.
  induction tr as [|e tr IH]; intros w w' Htr Hw; cbn [run].
  - by intros [= <-].
  - inversion Htr as [|? ? He Htr']; subst.
    unfold step_world. destruct (enabled w e); [|done]. intros Hrun.
    destruct (advice_shown_step w e He Hw) as [Hw1 Hc1].
    destruct (IH _ _ Htr' Hw1 Hrun) as [Hw' Hc']. split; [done | congruence].
Qed.

End Stale_advice.

(** X12: once an advisory text is on screen, the session makes no further
    advisory request: whatever the user edits, and however often Next is
    pressed, no external call is made and the text stays, until a scan result
    arrives or another customizer is opened.  The advice is therefore not
    renewed when the prescription is changed by hand. *)
Theorem advice_on_screen_is_never_renewed
    (JSON_stringify : Prescription -> string)
    (w : World) (inst : Instance) (tr : list Event) (w' : World) :
  current w = Some inst ->
  truthy (lensRecommendation (inst_state inst)) = true ->
  Forall (fun e => same_session_without_scan_result e = true) tr ->
  run JSON_stringify tr w = Some w' ->
  advisoryCalls w' = advisoryCalls w
  /\ (forall inst', current w' = Some inst' ->
        truthy (lensRecommendation (inst_state inst')) = true).
Proof.
  intros Hcur Hrec Htr Hrun.
  assert (Hw : advice_shown w).
  { intros inst0 H0. rewrite Hcur in H0. by injection H0 as <-. }
  destruct (advice_shown_run JSON_stringify tr w w' Htr Hw Hrun) as [H1 H2].
  by split.
Qed.

Lemma advice_on_screen_is_never_renewed_witness :
  exists w',
    run stringify_pd [Goto 1; EditPd "58"; EditRightEye Sph "-4.00"; Next] advised_world
    = Some w'
    /\ advisoryCalls w' = [initial_prescription].
Proof.
  eexists. split; [vm_compute; reflexivity|].
  refine (proj1 (advice_on_screen_is_never_renewed stringify_pd advised_world
                   {| inst_id := 0; inst_product := wayfarer;
                      inst_state :=
                        {| step := 2; prescription := initial_prescription;
                           lensSelection := initial_lensSelection;
                           isAiLoading := false;
                           lensRecommendation := Some "High Index";
                           isRecLoading := false |} |}
                   [Goto 1; EditPd "58"; EditRightEye Sph "-4.00"; Next] _ _ _ _ _)).
  - reflexivity.
  - reflexivity.
  - repeat (apply Forall_cons_2; [reflexivity|]). apply Forall_nil_2.
  - vm_compute. reflexivity.
Defined.

(** ** The cart over a session *)

Lemma cart_run JSON_stringify tr : forall w w',
  run JSON_stringify tr w = Some w' ->
  exists items,
    cart w' = (cart w ++ items)%list
    /\ length items = length (filter (fun e => is_finish e = true) tr).
Proof.
  induction tr as [|e tr IH]; intros w w'; cbn [run].
  - intros [= <-]. exists []. by rewrite app_nil_r.
  - unfold step_world. destruct (enabled w e) eqn:Hen; [|done]. intros Hrun.
    destruct (IH _ _ Hrun) as (items & Hc & Hl).
    assert (e = Finish \/ e <> Finish) as [->|He]
      by (destruct e; auto; right; discriminate).
    + cbn in Hen. destruct (current w) as [inst|] eqn:E; [|done].
      cbn [handle] in Hc. rewrite E in Hc. cbn in Hc.
      exists (finished_item inst :: items). split.
      * rewrite Hc. by rewrite <- app_assoc.
      * rewrite filter_cons_True by done. cbn. by rewrite Hl.
    + rewrite cart_handle in Hc by done. exists items. split; [done|].
      rewrite filter_cons_False; [done|]. by destruct e.
Qed.

(** X13: over any sequence of events the cart only grows at its end, by
    exactly one line item for each Finish: no event of the customizer removes or
    changes a line item already in the cart, and nothing but Finish adds one. *)
Theorem cart_grows_by_one_item_per_finish
    (JSON_stringify : Prescription -> string) (tr : list Event) (w w' : World) :
  run JSON_stringify tr w = Some w' ->
  exists items,
    cart w' = (cart w ++ items)%list
    /\ length items = length (filter (fun e => is_finish e = true) tr).
Proof. apply cart_run. Qed.

Lemma cart_grows_by_one_item_per_finish_witness :
  exists items,
    cart sample_world = ([] ++ items)%list /\ length items = 1%nat.
Proof.
  destruct (cart_grows_by_one_item_per_finish stringify_pd sample_trace
              initial_world sample_world) as (items & H1 & H2).
  - vm_compute. reflexivity.
  - exists items. split; [exact H1 | exact H2].
Defined.

(** ** Committed prices *)






(** ** Toasts *)

(** X16: closing a toast removes every toast that carries its id and no
    other: the remaining toasts keep their order; closing the toast that was
    just added gives the list there was before when no older toast has the
    same id, and otherwise the older toasts made in the same millisecond are
    closed with it. *)
Theorem removeToast_closes_all_with_that_id (id : Z) (toasts : list ToastEntry) :
  (forall t, t ∈ removeToast id toasts <-> t ∈ toasts /\ toast_id t <> id)
  /\ removeToast id toasts `sublist_of` toasts
  /\ (forall message type,
        removeToast id (addToast id message type toasts) = removeToast id toasts)
  /\ (Forall (fun t => toast_id t <> id) toasts ->
      forall message type, removeToast id (addToast id message type toasts) = toasts)
  /\ removeToast id (removeToast id toasts) = removeToast id toasts
  /\ (forall id', removeToast id (removeToast id' toasts)
                  = removeToast id' (removeToast id toasts)).
Proof.
  unfold removeToast, addToast.
  assert (Hadd : forall message type,
            filter (fun t => toast_id t <> id)
              (toasts ++ [{| toast_id := id; message := message;
                             toast_type := type |}])%list
            = filter (fun t => toast_id t <> id) toasts).
  { intros message type. rewrite filter_app.
    rewrite filter_cons_False by (cbn; tauto). rewrite filter_nil. apply app_nil_r. }
  assert (Hall : forall l : list ToastEntry,
            Forall (fun t => toast_id t <> id) l ->
            filter (fun t => toast_id t <> id) l = l).
  { induction l as [|t l IH]; intros Hl; [done|].
    inversion Hl; subst. rewrite filter_cons_True by done. f_equal. by apply IH. }
  split; [|split; [|split; [|split; [|split]]]].
  - intros t. rewrite list_elem_of_filter. tauto.
  - apply sublist_filter.
  - exact Hadd.
  - intros Hfresh message type. rewrite Hadd. by apply Hall.
  - apply Hall. apply Forall_forall. intros t Ht.
    by apply list_elem_of_filter in Ht as [? _].
  - intros id'. rewrite !list_filter_filter. apply list_filter_iff. intros t. tauto.
Qed.

Lemma removeToast_closes_all_with_that_id_witness :
  removeToast 7
    (addToast 7 "Added to cart" success
       [{| toast_id := 5; message := "Welcome back"; toast_type := info |}])
  = [{| toast_id := 5; message := "Welcome back"; toast_type := info |}].
Proof.
  apply (proj1 (proj2 (proj2 (proj2
           (removeToast_closes_all_with_that_id 7
              [{| toast_id := 5; message := "Welcome back"; toast_type := info |}]))))).
  apply Forall_cons_2; [cbn; lia | apply Forall_nil_2].
Defined.

(** ** The catalogue filter *)

(** X17: the category filter of the shop shows products of the catalogue
    only, in catalogue order; with a filter text every product shown has that
    category, and a text that names no category shows nothing; without the
    parameter, or with the empty text, the whole catalogue is shown; and the
    Power page and the Sunglasses page together show every product exactly
    once, the Power page holding exactly the products that the customizer
    treats as power products. *)
Theorem category_filter_partitions_catalogue (products : list Product) :
  (forall catFilter, filterByCategory catFilter products `sublist_of` products)
  /\ (forall text p, text <> "" ->
        (p ∈ filterByCategory (Some text) products
         <-> p ∈ products /\ category_text (category p) = text))
  /\ (forall text, text <> "Power Spectacles" -> text <> "Sunglasses" -> text <> "" ->
        filterByCategory (Some text) products = [])
  /\ filterByCategory None products = products
  /\ filterByCategory (Some "") products = products
  /\ (filterByCategory (Some "Power Spectacles") products
      ++ filterByCategory (Some "Sunglasses") products)%list ≡ₚ products
  /\ (forall p, p ∈ filterByCategory (Some "Power Spectacles") products
                <-> p ∈ products /\ isPower p = true).
Proof.
  assert (Hin : forall text p, text <> "" ->
            (p ∈ filterByCategory (Some text) products
             <-> p ∈ products /\ category_text (category p) = text)).
  { intros text p Hne. unfold filterByCategory. cbn.
    rewrite bool_decide_eq_false_2 by done. cbn.
    rewrite list_elem_of_filter. tauto. }
  split; [|split; [|split; [|split; [|split; [|split]]]]].
  - intros catFilter. unfold filterByCategory. case_match; [apply sublist_filter | done].
  - exact Hin.
  - intros text H1 H2 H3. unfold filterByCategory. cbn.
    rewrite bool_decide_eq_false_2 by done. cbn. clear Hin.
    induction products as [|p ps IH]; [done|].
    rewrite filter_cons_False; [exact IH|]. by destruct (category p).
  - done.
  - done.
  - unfold filterByCategory, truthy. clear Hin.
    rewrite !bool_decide_eq_false_2 by done. cbn [negb default].
    induction products as [|p ps IH]; [done|].
    destruct (category p) eqn:Hc.
    + rewrite (filter_cons_True _ p) by (by rewrite Hc).
      rewrite (filter_cons_False _ p) by (by rewrite Hc).
      cbn [app]. by apply Permutation_skip.
    + rewrite (filter_cons_False _ p) by (by rewrite Hc).
      rewrite (filter_cons_True _ p) by (by rewrite Hc).
      rewrite <- Permutation_middle. by apply Permutation_skip.
  - intros p. rewrite Hin by done. unfold isPower.
    rewrite bool_decide_eq_true. split; intros [H1 H2]; (split; [done|]);
      by destruct (category p).
Qed.

Lemma category_filter_partitions_catalogue_witness :
  wayfarer ∈ filterByCategory (Some "Power Spectacles") MOCK_PRODUCTS
  /\ filterByCategory (Some "Kids") MOCK_PRODUCTS = [].
Proof.
  destruct (category_filter_partitions_catalogue MOCK_PRODUCTS)
    as (_ & Hcat & Hnone & _).
  split.
  - apply Hcat; [done|]. split; [|reflexivity].
    apply list_elem_of_further, list_elem_of_here.
  - by apply Hnone.
Defined.

(** The three pages of the shop, for the catalogue of the application. *)
Lemma shop_pages :
  filteredProducts None = [aviator; wayfarer; tech_titan; ocean_drift]
  /\ filteredProducts (Some "Power Spectacles") = [wayfarer; tech_titan]
  /\ filteredProducts (Some "Sunglasses") = [aviator; ocean_drift].
Proof. by vm_compute. Qed.

(** ** Sign-in and sign-out *)

Lemma auth_run_sync actions : forall s,
  user s = lm_user s ->
  user (foldl auth_step s actions) = lm_user (foldl auth_step s actions).
Proof.
  induction actions as [|a actions IH]; intros s Hs; [done|].
  cbn [foldl]. apply IH. by destruct a.
Qed.

(** X18: after any sequence of sign-ins, sign-outs and password resets the
    signed-in user is the user held in localStorage, so a reload of the page
    restores exactly the session there was; a sign-out removes both; and a
    user signed in by the hook is never locked, has no failed attempt, has
    consented, and has the id admin_1 exactly when its role is ADMIN. *)
Theorem session_and_storage_agree (saved : option User.t) (actions : list AuthAction) :
  let s := foldl auth_step (initial_auth saved) actions in
  user s = lm_user s
  /\ user (initial_auth (lm_user s)) = user s
  /\ user (logout s) = None /\ lm_user (logout s) = None
  /\ (forall role n e,
        let u := mockUser role n e in
        user (login role n e s) = Some u
        /\ User.isLocked u = false /\ User.failedLoginAttempts u = 0
        /\ User.gdprConsent u = true /\ User.role u = role
        /\ (User.id u = "admin_1" <-> role = ADMIN)
        /\ (User.id u = "user_1" <-> role = CUSTOMER)).
Proof.
  cbn zeta. assert (Hs := auth_run_sync actions (initial_auth saved) eq_refl).
  split; [exact Hs|]. split; [by cbn|]. split; [done|]. split; [done|].
  intros role n e. repeat split; try done; by destruct role.
Qed.

(** X19: a sign-in sends a welcome mail exactly when localStorage holds no
    user or a name was given, and then one mail, to the address of the user
    signed in.  So the first sign-in after a sign-out always sends a welcome
    mail, also to a user who had signed in before, and a sign-in without a name
    while a user is stored sends none.  When no address is given, or the empty
    one, the mail goes to the stock address of the role. *)
Theorem welcome_mail_rule (s : AuthState) (role : UserRole)
    (providedName providedEmail : option string) :
  let u := mockUser role providedName providedEmail in
  let welcome := {| mail_to := User.email u; mail_type := WELCOME;
                    mail_data := name_data (User.name u) |} in
  (lm_user s = None \/ truthy providedName = true ->
     sent (login role providedName providedEmail s) = (sent s ++ [welcome])%list)
  /\ (is_Some (lm_user s) -> truthy providedName = false ->
      sent (login role providedName providedEmail s) = sent s)
  /\ sent (login role providedName providedEmail (logout s)) = (sent s ++ [welcome])%list
  /\ sent (login role None providedEmail (login role providedName providedEmail s))
     = sent (login role providedName providedEmail s)
  /\ (truthy providedEmail = false ->
      User.email u = match role with
                     | ADMIN => "admin@lensmaster.com"
                     | CUSTOMER => "john@example.com"
                     end)
  /\ (forall e, e <> "" -> User.email (mockUser role providedName (Some e)) = e).
Proof.
  cbn zeta. unfold login, isNewUser. cbn.
  split; [|split; [|split; [|split; [|split]]]].
  - intros [-> | ->]; cbn; [done|]. by rewrite orb_true_r.
  - intros [u0 ->] ->. done.
  - done.
  - done.
  - intros H. unfold mockUser. cbn. by rewrite H.
  - intros e He. unfold mockUser. cbn. by rewrite bool_decide_eq_false_2.
Qed.

Lemma welcome_mail_rule_witness :
  sent (login CUSTOMER None (Some "jane@example.com") (initial_auth None))
  = [{| mail_to := "jane@example.com"; mail_type := WELCOME;
        mail_data := name_data "John Doe" |}].
Proof.
  refine (proj1 (welcome_mail_rule (initial_auth None) CUSTOMER None
                   (Some "jane@example.com")) _).
  left. reflexivity.
Defined.

(** ** The subject of a generated mail *)





(** ** Advisory calls in flight *)

Lemma filter_delete_other {A} (P : A -> Prop) `{forall x, Decision (P x)}
    (l : list A) : forall k x,
  l !! k = Some x -> ~ P x -> filter P (delete k l) = filter P l.
Proof.
  induction l as [|y l IH]; intros k x Hk Hx; [done|].
  destruct k as [|k].
  - cbn in Hk. injection Hk as ->. cbn [delete list_delete].
    by rewrite filter_cons_False.
  - change (delete (S k) (y :: l)) with (y :: delete k l).
    destruct (decide (P y));
      [rewrite !(filter_cons_True _ y) by done
      |rewrite !(filter_cons_False _ y) by done];
      by rewrite (IH k x Hk Hx).
Qed.

Lemma filter_delete_length {A} (P : A -> Prop) `{forall x, Decision (P x)}
    (l : list A) : forall k x,
  l !! k = Some x -> P x ->
  S (length (filter P (delete k l))) = length (filter P l).
Proof.
  induction l as [|y l IH]; intros k x Hk Hx; [done|].
  destruct k as [|k].
  - cbn in Hk. injection Hk as ->. cbn [delete list_delete].
    by rewrite filter_cons_True.
  - change (delete (S k) (y :: l)) with (y :: delete k l).
    destruct (decide (P y));
      [rewrite !(filter_cons_True _ y) by done
      |rewrite !(filter_cons_False _ y) by done];
      cbn; by rewrite (IH k x Hk Hx).
Qed.

Section In_flight.

Variable JSON_stringify : Prescription -> string.

Lemma next_id_handle e w :
  (forall p, e <> Open p) -> next_id (handle JSON_stringify e w) = next_id w.
Proof.
  intros He. destruct e; cbn [handle]; try (by destruct (He p)); try done;
    repeat case_match; subst; cbn [handle_ui]; try done.
  - unfold handleNextStep, fetchRecommendation. by repeat case_match.
  - unfold handleFileUpload_resolved, fetchRecommendation. by repeat case_match.
Qed.

Lemma current_id_handle e w inst' :
  (forall p, e <> Open p) ->
  current (handle JSON_stringify e w) = Some inst' ->
  exists inst, current w = Some inst /\ inst_id inst = inst_id inst'.
Proof.
  intros He Hcur.
  assert (Hv : order_view (handle JSON_stringify e w) = Some (view_of inst'))
    by (unfold order_view; by rewrite Hcur).
  rewrite order_view_handle in Hv.
  destruct (current w) as [inst|] eqn:E.
  - exists inst. split; [done|].
    destruct e; cbn [view_after] in Hv; unfold order_view in Hv; rewrite ?E in Hv;
      cbn in Hv; try done; try (by injection Hv); try (by destruct (He p)).
    destruct (extractions w !! k); cbn in Hv; [|by injection Hv].
    case_bool_decide; by injection Hv.
  - destruct e; cbn [view_after] in Hv; unfold order_view in Hv; rewrite ?E in Hv;
      cbn in Hv; try done; try (by destruct (He p)).
    by destruct (extractions w !! k).
Qed.

(** Who makes the call, when an event makes one. *)
Lemma call_owner e w i key :
  (i, key) ∈ advisories (handle JSON_stringify e w) ->
  (i, key) ∈ advisories w
  \/ (exists inst, current w = Some inst /\ inst_id inst = i /\ e = Next
                   /\ isRecLoading (inst_state inst) = false)
  \/ (exists k data, e = ExtractionResolved k data /\ extractions w !! k = Some i).
Proof.
  destruct e; cbn [handle]; try (by left);
    try (destruct (current w) as [inst|] eqn:E; cbn [handle_ui]; by left).
  - destruct (current w) as [inst|] eqn:E; [|by left]. cbn [handle_ui].
    unfold handleNextStep, fetchRecommendation.
    repeat case_match; try (by left).
    cbn. intros [Hin|Hin]%elem_of_app; [by left|].
    apply list_elem_of_singleton in Hin. injection Hin as -> ->.
    right. left. exists inst. repeat split.
    match goal with H : _ && _ = true |- _ => apply andb_true_iff in H as [_ H] end.
    by apply negb_true_iff.
  - destruct (extractions w !! k) as [i0|] eqn:Hk; [|by left].
    unfold handleFileUpload_resolved, fetchRecommendation.
    case_match; [by left|].
    cbn. intros [Hin|Hin]%elem_of_app; [by left|].
    apply list_elem_of_singleton in Hin. injection Hin as -> ->.
    right. right. by exists k, data.
  - destruct (extractions w !! k) as [i0|]; by left.
  - destruct (advisories w !! k) as [[i0 key0]|]; [|by left].
    cbn. intros Hin. left. by eapply list_elem_of_delete_inv.
  - destruct (advisories w !! k) as [[i0 key0]|]; [|by left].
    cbn. intros Hin. left. by eapply list_elem_of_delete_inv.
Qed.

(** Whose scan is in flight after an event. *)
Lemma extraction_owner e w i :
  i ∈ extractions (handle JSON_stringify e w) ->
  i ∈ extractions w
  \/ (exists inst, current w = Some inst /\ inst_id inst = i /\ e = Upload).
Proof.
  destruct e; cbn [handle]; try (by left);
    try (destruct (current w) as [inst|] eqn:E; cbn [handle_ui]; by left).
  - destruct (current w) as [inst|] eqn:E; [|by left]. cbn.
    intros [Hin|Hin]%elem_of_app; [by left|].
    apply list_elem_of_singleton in Hin. right. by exists inst.
  - destruct (current w) as [inst|] eqn:E; [|by left]. cbn [handle_ui].
    unfold handleNextStep, fetchRecommendation. repeat case_match; by left.
  - destruct (extractions w !! k) as [i0|]; [|by left].
    unfold handleFileUpload_resolved, fetchRecommendation.
    case_match; cbn; intros Hin; left; by eapply list_elem_of_delete_inv.
  - destruct (extractions w !! k) as [i0|]; [|by left].
    cbn. intros Hin. left. by eapply list_elem_of_delete_inv.
  - destruct (advisories w !! k) as [[i0 key0]|]; by left.
  - destruct (advisories w !! k) as [[i0 key0]|]; by left.
Qed.

Lemma ids_below_step w e : ids_below w -> ids_below (handle JSON_stringify e w).
Proof.
  intros (Hext & Hadv & Hcur).
  rewrite Forall_forall in Hext. rewrite Forall_forall in Hadv.
  assert ((exists p, e = Open p) \/ forall p, e <> Open p) as [[p ->]|He]
    by (destruct e; eauto; right; discriminate).
  - cbn [handle]. repeat split.
    + apply Forall_forall. intros i Hi. specialize (Hext i Hi). cbn in *. lia.
    + apply Forall_forall. intros a Ha. specialize (Hadv a Ha). cbn in *. lia.
    + intros inst [= <-]. cbn. lia.
  - unfold ids_below. rewrite (next_id_handle e w He). repeat split.
    + apply Forall_forall. intros i Hi.
      destruct (extraction_owner e w i Hi) as [H|(inst & E & <- & _)];
        [by apply Hext | by apply Hcur].
    + apply Forall_forall. intros [i key] Hi. cbn.
      destruct (call_owner e w i key Hi)
        as [H|[(inst & E & <- & _)|(k & data & _ & Hk)]].
      * by apply (Hadv (i, key)).
      * by apply Hcur.
      * apply Hext. by eapply list_elem_of_lookup_2.
    + intros inst' Hcur'.
      destruct (current_id_handle e w inst' He Hcur') as (inst & E & <-).
      by apply Hcur.
Qed.

Lemma reachable_ids_below w : reachable JSON_stringify w -> ids_below w.
Proof.
  induction 1 as [|w e w' _ IH Hstep].
  - repeat split; try constructor. done.
  - unfold step_world in Hstep. destruct (enabled w e); [|done].
    injection Hstep as <-. by apply ids_below_step.
Qed.

Lemma pending_of_call i j key pData w :
  pending_of i (call_getLensRecommendation j key pData w)
  = (pending_of i w ++ if decide (j = i) then [(j, key)] else [])%list.
Proof.
  unfold pending_of. cbn. rewrite filter_app. by f_equal.
Qed.

Lemma one_in_flight_step i w e :
  not_upload e = true ->
  one_in_flight i w -> one_in_flight i (handle JSON_stringify e w).
Proof.
  intros He (Hext & Hlt & Hlen & Hflag).
  assert (H12 : (i ∉ extractions (handle JSON_stringify e w))
                /\ (i < next_id (handle JSON_stringify e w))%nat).
  { split.
    - intros Hin. destruct (extraction_owner e w i Hin) as [H|(inst & _ & _ & ->)];
        [by apply Hext | done].
    - assert ((exists p, e = Open p) \/ forall p, e <> Open p) as [[p ->]|Hno]
        by (destruct e; eauto; right; discriminate).
      + cbn. lia.
      + by rewrite next_id_handle. }
  destruct H12 as [H1 H2]. split; [exact H1|]. split; [exact H2|].
  (* when the calls of [i] and its flag are as before *)
  assert (Hkeep : forall w',
            pending_of i w' = pending_of i w ->
            (forall inst', current w' = Some inst' -> inst_id inst' = i ->
               isRecLoading (inst_state inst') = false ->
               exists inst, current w = Some inst /\ inst_id inst = i
                            /\ isRecLoading (inst_state inst) = false) ->
            (length (pending_of i w') <= 1)%nat
            /\ (forall inst', current w' = Some inst' -> inst_id inst' = i ->
                  isRecLoading (inst_state inst') = false -> pending_of i w' = [])).
  { intros w' Hp Hc. rewrite Hp. split; [done|].
    intros inst' E' Hi Hl. destruct (Hc inst' E' Hi Hl) as (inst & E & Hi0 & Hl0).
    by eapply Hflag. }
  assert (Hsimple : forall inst u,
            current w = Some inst ->
            (forall b, u <> setIsRecLoading b) ->
            (length (pending_of i (dispatch (inst_id inst) u w)) <= 1)%nat
            /\ (forall inst', current (dispatch (inst_id inst) u w) = Some inst' ->
                  inst_id inst' = i ->
                  isRecLoading (inst_state inst') = false ->
                  pending_of i (dispatch (inst_id inst) u w) = [])).
  { intros inst u E Hu. apply Hkeep; [done|].
    intros inst'. expose_current E. own_updates. intros [= <-]. cbn.
    intros Hi Hl. exists inst. repeat split; [done|].
    destruct u; cbn in Hl; try done. by destruct (Hu b). }
  destruct e; try done; cbn [handle].
  - (* Open *) apply Hkeep; [done|]. cbn. intros inst' [= <-]. cbn. lia.
  - (* NavigateAway *)
    destruct (current w) as [inst|] eqn:E; [|by split; [|rewrite E]]. apply Hkeep; [done|]. done.
  - destruct (current w) as [inst|] eqn:E; [|by split; [|rewrite E]]. by apply Hsimple.
  - destruct (current w) as [inst|] eqn:E; [|by split; [|rewrite E]]. by apply Hsimple.
  - destruct (current w) as [inst|] eqn:E; [|by split; [|rewrite E]]. by apply Hsimple.
  - (* Next *)
    destruct (current w) as [inst|] eqn:E; [|by split; [|rewrite E]]. cbn [handle_ui].
    unfold handleNextStep, fetchRecommendation.
    destruct (bool_decide (step (inst_state inst) = 1)); [|by apply Hsimple].
    destruct (negb (truthy (lensRecommendation (inst_state inst)))
              && negb (isRecLoading (inst_state inst))) eqn:Hguard;
      [|by apply Hsimple].
    apply andb_true_iff in Hguard as [_ Hload]. apply negb_true_iff in Hload.
    case_match.
    + apply Hkeep; [done|].
      intros inst'. expose_current E. own_updates. intros [= <-]. cbn.
      intros Hi _. by exists inst.
    + rewrite pending_of_call. split.
      * change (pending_of i (dispatch ?j ?u (dispatch ?j' ?u' w)))
          with (pending_of i w).
        case_decide as Hi; [|by rewrite app_nil_r].
        rewrite (Hflag inst eq_refl Hi Hload). cbn. lia.
      * intros inst'. expose_current E. own_updates. by intros [= <-].
  - destruct (current w) as [inst|] eqn:E; [|by split; [|rewrite E]]. by apply Hsimple.
  - destruct (current w) as [inst|] eqn:E; [|by split; [|rewrite E]]. by apply Hsimple.
  - destruct (current w) as [inst|] eqn:E; [|by split; [|rewrite E]]. by apply Hsimple.
  - (* Finish *)
    destruct (current w) as [inst|] eqn:E; [|by split; [|rewrite E]]. apply Hkeep; [done|]. done.
  - (* ExtractionResolved *)
    destruct (extractions w !! k) as [i0|] eqn:Hk; [|by split].
    assert (Hne : i0 <> i)
      by (intros ->; apply Hext; by eapply list_elem_of_lookup_2).
    unfold handleFileUpload_resolved, fetchRecommendation.
    apply Hkeep.
    + case_match; [done|]. unfold pending_of. cbn. rewrite filter_app.
      rewrite filter_cons_False by (cbn; congruence). by rewrite app_nil_r.
    + intros inst'.
      destruct (current w) as [inst|] eqn:E; [|by case_match; expose_current E].
      case_match; expose_current E;
        (destruct (decide (inst_id inst = i0)) as [Hi|Hi];
         [own_updates | other_updates]); intros [= <-]; cbn; intros Hi' Hl;
        try congruence; by exists inst.
  - (* ExtractionRejected *)
    destruct (extractions w !! k) as [i0|] eqn:Hk; [|by split].
    assert (Hne : i0 <> i)
      by (intros ->; apply Hext; by eapply list_elem_of_lookup_2).
    unfold handleFileUpload_rejected. apply Hkeep; [done|].
    intros inst'.
    destruct (current w) as [inst|] eqn:E; [|by expose_current E].
    expose_current E.
    (destruct (decide (inst_id inst = i0)) as [Hi|Hi];
     [own_updates | other_updates]); intros [= <-]; cbn; intros Hi' Hl;
      try congruence; by exists inst.
  - (* AdvisoryResolved *)
    destruct (advisories w !! k) as [[i0 key0]|] eqn:Hk; [|by split].
    unfold fetchRecommendation_resolved.
    destruct (decide (i0 = i)) as [->|Hne].
    + assert (Hnil : pending_of i
                (dispatch i (setIsRecLoading false)
                   (dispatch i (setLensRecommendation (cleanedRec rec))
                      (with_cache (with_advisories w (delete k (advisories w)))
                         (<[key0:=cleanedRec rec]>
                            (recommendationCache
                               (with_advisories w (delete k (advisories w)))))))) = []).
      { unfold pending_of. cbn.
        pose proof (filter_delete_length (fun a : nat * string => a.1 = i)
                      (advisories w) k (i, key0) Hk eq_refl) as Hd.
        unfold pending_of in Hlen.
        destruct (filter _ (delete k (advisories w))); [done|]. cbn in Hd. lia. }
      cbn zeta. rewrite Hnil. split; [cbn; lia | done].
    + apply Hkeep.
      * unfold pending_of. cbn. by rewrite (filter_delete_other _ _ k (i0, key0)).
      * intros inst'.
        destruct (current w) as [inst|] eqn:E; [|by expose_current E].
        expose_current E.
        (destruct (decide (inst_id inst = i0)) as [Hi|Hi];
         [own_updates | other_updates]); intros [= <-]; cbn; intros Hi' Hl;
          try congruence; by exists inst.
  - (* AdvisoryRejected *)
    destruct (advisories w !! k) as [[i0 key0]|] eqn:Hk; [|by split].
    unfold fetchRecommendation_rejected.
    destruct (decide (i0 = i)) as [->|Hne].
    + assert (Hnil : pending_of i
                (dispatch i (setIsRecLoading false)
                   (with_advisories w (delete k (advisories w)))) = []).
      { unfold pending_of. cbn.
        pose proof (filter_delete_length (fun a : nat * string => a.1 = i)
                      (advisories w) k (i, key0) Hk eq_refl) as Hd.
        unfold pending_of in Hlen.
        destruct (filter _ (delete k (advisories w))); [done|]. cbn in Hd. lia. }
      rewrite Hnil. split; [cbn; lia | done].
    + apply Hkeep.
      * unfold pending_of. cbn. by rewrite (filter_delete_other _ _ k (i0, key0)).
      * intros inst'.
        destruct (current w) as [inst|] eqn:E; [|by expose_current E].
        expose_current E.
        (destruct (decide (inst_id inst = i0)) as [Hi|Hi];
         [own_updates | other_updates]); intros [= <-]; cbn; intros Hi' Hl;
          try congruence; by exists inst.
Qed.

Lemma one_in_flight_run i tr : forall w w',
  Forall (fun e => not_upload e = true) tr ->
  one_in_flight i w ->
  run JSON_stringify tr w = Some w' ->
  one_in_flight i w'.
Proof.
  induction tr as [|e tr IH]; intros w w' Htr Hw; cbn [run].
  - by intros [= <-].
  - inversion Htr as [|? ? He Htr']; subst.
    unfold step_world. destruct (enabled w e); [|done].
    apply IH; [done|]. by apply one_in_flight_step.
Qed.

End In_flight.

(** X21: in a customizer session in which no file is uploaded, at most one
    advisory call of that session is in flight at any time: handleNextStep
    asks for advice only while [isRecLoading] is false, and the flag is true
    from the request until its completion.  (A scan result asks for advice
    without looking at the flag, hence the restriction.) *)
Theorem one_advisory_call_in_flight_without_upload
    (JSON_stringify : Prescription -> string)
    (w : World) (p : Product) (tr : list Event) (w' : World) :
  reachable JSON_stringify w ->
  current w = None ->
  Forall (fun e => not_upload e = true) tr ->
  run JSON_stringify (Open p :: tr) w = Some w' ->
  (length (pending_of (next_id w) w') <= 1)%nat.
Proof.
  intros Hr Hcur Htr. cbn [run]. unfold step_world at 1. cbn [enabled].
  rewrite bool_decide_eq_true_2 by done. cbn [mbind option_bind handle].
  intros Hrun.
  destruct (reachable_ids_below JSON_stringify w Hr) as (Hext & Hadv & _).
  rewrite Forall_forall in Hext. rewrite Forall_forall in Hadv.
  assert (Hnil : pending_of (next_id w) (mount p w) = []).
  { unfold pending_of. change (advisories (mount p w)) with (advisories w).
    induction (advisories w) as [|a l IH]; [done|].
    rewrite filter_cons_False.
    - apply IH. intros b Hb. apply Hadv. by right.
    - pose proof (Hadv a (list_elem_of_here _ _)). lia. }
  assert (H0 : one_in_flight (next_id w) (mount p w)).
  { split; [|split; [|split]].
    - change (extractions (mount p w)) with (extractions w).
      intros Hin. specialize (Hext _ Hin). lia.
    - cbn. lia.
    - rewrite Hnil. cbn. lia.
    - by intros. }
  by destruct (one_in_flight_run JSON_stringify (next_id w) tr _ _ Htr H0 Hrun)
    as (_ & _ & Hlen & _).
Qed.

Lemma one_advisory_call_in_flight_without_upload_witness :
  exists w',
    run stringify_pd [Open wayfarer; Next; Goto 1; EditPd "58"; Next] initial_world
    = Some w'
    /\ (length (pending_of 0 w') <= 1)%nat.
Proof.
  eexists. split; [vm_compute; reflexivity|].
  refine (one_advisory_call_in_flight_without_upload stringify_pd initial_world
            wayfarer [Next; Goto 1; EditPd "58"; Next] _ _ _ _ _).
  - apply reachable_initial.
  - reflexivity.
  - repeat (apply Forall_cons_2; [reflexivity|]). apply Forall_nil_2.
  - vm_compute. reflexivity.
Defined.
